(** * python-snap7: the error translator, the driver loader and the Partner
      endpoint contract

    Shallow embedding of [snap7/common.py] (the singleton loader
    [Snap7Library], [load_library], [error_hadler_decorator], [check_error],
    [error_text], [find_locally], [find_in_package]) as a state-and-exception
    monad over the interpreter's process state, with the operating system and
    the native driver as an explicit environment. *)

From Stdlib Require Import ZArith List String Ascii Bool Lia HexString.
From Stdlib.Strings Require Import Byte.
From Stdlib Require Import DecimalString.
Import ListNotations.

Local Open Scope Z_scope.
Local Open Scope string_scope.

(** ** Python values and exceptions *)

(** The argument an exception is built from: [RuntimeError] receives a [str]
    in [Snap7Library.__init__] and the [bytes] of [error_text] in
    [check_error]. [ArgumentError] is the exception of [ctypes] for an
    argument it cannot convert, with the position of that argument. *)
Inductive exn_arg : Type :=
| ArgStr (s : string)
| ArgBytes (b : list byte).

Inductive exn : Type :=
| RuntimeError (arg : exn_arg)
| TypeError (msg : string)
| OSError (path : string)
| AttributeError (name : string)
| ArgumentError (argument : nat).

Inductive result (A : Type) : Type :=
| Ok (a : A)
| Raise (e : exn).

Arguments Ok {A} a.
Arguments Raise {A} e.

(** Truth value of an [Optional[str]]: [None] and the empty string are
    false. *)
Definition truthy (o : option string) : bool :=
  match o with
  | None => false
  | Some s => negb (s =? "")
  end.

(** ** The native driver and the operating system *)

(** A driver entry point [X_ErrorText(error, text, len_)]: it receives the
    code, the caller's buffer and its length, and leaves the buffer in a new
    state. It is given the Python integer of the call; what the C side makes
    of it (the low 32 bits) is the entry point's part. *)
Definition ErrorTextFn : Type := Z -> list byte -> Z -> list byte.

(** The object [cdll.LoadLibrary] returns. *)
Record CDLL : Type := mkCDLL {
  cdll_name : string;
  Cli_ErrorText : ErrorTextFn;
  Srv_ErrorText : ErrorTextFn;
  Par_ErrorText : ErrorTextFn
}.

Inductive EntryPoint : Type :=
| EP_Cli_ErrorText
| EP_Srv_ErrorText
| EP_Par_ErrorText.

Definition entry (ep : EntryPoint) (library : CDLL) : ErrorTextFn :=
  match ep with
  | EP_Cli_ErrorText => Cli_ErrorText library
  | EP_Srv_ErrorText => Srv_ErrorText library
  | EP_Par_ErrorText => Par_ErrorText library
  end.

(** What the interpreter and the operating system answer: [sys.platform],
    the directory of [common.py], the working directory, [pathlib]'s join,
    [os.path.exists], [os.path.isfile], [ctypes.util.find_library] and
    [cdll.LoadLibrary] ([None] when the latter raises [OSError]), and the
    width in bits of a C [long] (64 on Linux and macOS, 32 on Windows). *)
Record Env : Type := mkEnv {
  long_bits : Z;
  sys_platform : string;
  package_dir : string;
  cwd : string;
  path_join : string -> string -> string;
  os_path_exists : string -> bool;
  os_path_isfile : string -> bool;
  find_library : string -> option string;
  LoadLibrary : string -> option CDLL
}.

(** ** Process state *)

(** Everything the module does to the outside, in the order it happens. *)
Inductive Event : Type :=
| EvExists (path : string)
| EvIsFile (path : string)
| EvFindLibrary (name : string)
| EvLoadLibrary (path : string) (opened : bool)
| EvErrorText (ep : EntryPoint) (code : Z) (len_ : Z).

Inductive LogRecord : Type :=
| LogDebug (msg : string)
| LogError (msg : list byte).

(** The attributes of the one [Snap7Library] object. [lib_location] reads the
    class attribute ([None]) until [__init__] assigns it; [cdll] is [None]
    while the attribute is missing. *)
Record Snap7Library : Type := mkSnap7Library {
  lib_location : option string;
  cdll : option CDLL
}.

Record Proc : Type := mkProc {
  _instance : option Snap7Library;
  events : list Event;
  log : list LogRecord
}.

Definition fresh_process : Proc :=
  {| _instance := None; events := []; log := [] |}.

Definition set_instance (s : Snap7Library) (p : Proc) : Proc :=
  {| _instance := Some s; events := events p; log := log p |}.

Definition add_event (e : Event) (p : Proc) : Proc :=
  {| _instance := _instance p; events := (events p ++ [e])%list; log := log p |}.

Definition add_log (r : LogRecord) (p : Proc) : Proc :=
  {| _instance := _instance p; events := events p; log := (log p ++ [r])%list |}.

(** ** The monad of module code: reads the environment, threads the process
    state, may raise *)

Definition M (A : Type) : Type := Env -> Proc -> result A * Proc.

Definition ret {A : Type} (a : A) : M A := fun _ p => (Ok a, p).

Definition raise {A : Type} (e : exn) : M A := fun _ p => (Raise e, p).

Definition bind {A B : Type} (m : M A) (k : A -> M B) : M B :=
  fun env p =>
    match m env p with
    | (Ok a, p') => k a env p'
    | (Raise e, p') => (Raise e, p')
    end.

Notation "x <- m ;; k" := (bind m (fun x => k))
  (at level 61, m at next level, right associativity).
Notation "m ;;; k" := (bind m (fun _ => k))
  (at level 61, right associativity).

Definition emit (e : Event) : M unit := fun _ p => (Ok tt, add_event e p).

Definition ask {A : Type} (f : Env -> A) : M A := fun env p => (Ok (f env), p).

(** Python's [a or b] on [Optional[str]] operands: [b] is evaluated only when
    [a] is false. *)
Definition py_or (a b : M (option string)) : M (option string) :=
  x <- a ;; if truthy x then ret x else b.

Definition raised {A : Type} (r : result A * Proc) : Prop :=
  exists e, fst r = Raise e.

(** ** The probes of the file system *)

Definition exists_ (path : string) : M bool :=
  emit (EvExists path) ;;; ask (fun env => os_path_exists env path).

Definition isfile (path : string) : M bool :=
  emit (EvIsFile path) ;;; ask (fun env => os_path_isfile env path).

Definition find_library_ (name : string) : M (option string) :=
  emit (EvFindLibrary name) ;;; ask (fun env => find_library env name).

Definition LoadLibrary_ (path : string) : M CDLL :=
  fun env p =>
    match LoadLibrary env path with
    | Some h => (Ok h, add_event (EvLoadLibrary path true) p)
    | None => (Raise (OSError path), add_event (EvLoadLibrary path false) p)
    end.

(** [find_locally]: the file [<fname>.dll] of the working directory. *)
Definition find_locally (fname : string) : M (option string) :=
  file <- ask (fun env => path_join env (cwd env) (fname ++ ".dll")) ;;
  e <- exists_ file ;;
  if e then ret (Some file) else ret None.

(** [find_in_package]: the binary bundled in [lib/] next to the module, named
    after [sys.platform]. *)
Definition package_lib (platform : string) : string :=
  if platform =? "darwin" then "libsnap7.dylib"
  else if platform =? "win32" then "snap7.dll"
  else "libsnap7.so".

Definition find_in_package : M (option string) :=
  lib <- ask (fun env => package_lib (sys_platform env)) ;;
  full_path <- ask (fun env => path_join env (path_join env (package_dir env) "lib") lib) ;;
  e <- exists_ full_path ;;
  f <- (if e then isfile full_path else ret false) ;;
  if f then ret (Some full_path) else ret None.

(** ** [Snap7Library] *)

Definition not_found_message : string :=
  "can't find snap7 library. If installed, try running ldconfig".

(** [__new__]: the object is made once and kept in [_instance]. *)
Definition Snap7Library_new (lib_location : option string) : M Snap7Library :=
  fun _ p =>
    match _instance p with
    | Some self => (Ok self, p)
    | None =>
        let self := {| lib_location := None; cdll := None |} in
        (Ok self, set_instance self p)
    end.

Definition setattr (self : Snap7Library) : M unit :=
  fun _ p => (Ok tt, set_instance self p).

(** The right-hand side of the assignment to [self.lib_location] in
    [__init__]: [lib_location or self.lib_location or find_in_package() or
    find_library('snap7') or find_locally('snap7')]. *)
Definition resolve_location (self : Snap7Library) (arg : option string) : M (option string) :=
  py_or (py_or (py_or (py_or (ret arg)
                             (ret (lib_location self)))
                      find_in_package)
               (find_library_ "snap7"))
        (find_locally "snap7").

(** [__init__], on the object [__new__] returned. The attributes are stored
    back into the singleton at each assignment; the last branch is not
    reached, [None] being false. *)
Definition Snap7Library_init (self : Snap7Library) (arg : option string) : M Snap7Library :=
  match cdll self with
  | Some _ => ret self
  | None =>
      loc <- resolve_location self arg ;;
      let self := {| lib_location := loc; cdll := cdll self |} in
      setattr self ;;;
      if negb (truthy loc) then
        raise (RuntimeError (ArgStr not_found_message))
      else
        match loc with
        | Some path =>
            h <- LoadLibrary_ path ;;
            let self := {| lib_location := loc; cdll := Some h |} in
            setattr self ;;; ret self
        | None => raise (RuntimeError (ArgStr not_found_message))
        end
  end.

(** The call [Snap7Library(lib_location)]. *)
Definition Snap7Library_call (arg : option string) : M Snap7Library :=
  self <- Snap7Library_new arg ;; Snap7Library_init self arg.

(** [load_library]. *)
Definition load_library (arg : option string) : M CDLL :=
  self <- Snap7Library_call arg ;;
  match cdll self with
  | Some h => ret h
  | None => raise (AttributeError "cdll")
  end.

(** ** The error translator *)

Definition contexts : list string := ["client"; "server"; "partner"].

Definition in_contexts (context : string) : bool :=
  existsb (String.eqb context) contexts.

Definition logger_debug (msg : string) : M unit :=
  fun _ p => (Ok tt, add_log (LogDebug msg) p).

Definition logger_error (msg : list byte) : M unit :=
  fun _ p => (Ok tt, add_log (LogError msg) p).

(** [c_char * len_], zero-filled. *)
Definition c_char_array (len_ : Z) : list byte := repeat x00 (Z.to_nat len_).

Fixpoint c_string (buf : list byte) : list byte :=
  match buf with
  | [] => []
  | c :: rest => if Byte.eqb c x00 then [] else c :: c_string rest
  end.

(** [text.value]: the bytes of the array before its first NUL. *)
Definition value (len_ : Z) (text : list byte) : list byte :=
  c_string (firstn (Z.to_nat len_) text).

(** How [ctypes] passes a Python [int] to a foreign function that declares
    no argument types: through a C [unsigned long] or, failing that, a C
    [long]. An [int] that fits neither is refused with [ArgumentError] and
    the function is not called. *)
Definition int_converts (bits n : Z) : bool :=
  (- 2 ^ (bits - 1) <=? n)%Z && (n <? 2 ^ bits)%Z.

(** [library.X_ErrorText(error, text, len_)]. *)
Definition call_ErrorText (ep : EntryPoint) (library : CDLL)
    (error : Z) (text : list byte) (len_ : Z) : M (list byte) :=
  converts <- ask (fun env => int_converts (long_bits env) error) ;;
  if converts then
    emit (EvErrorText ep error len_) ;;; ret (entry ep library error text len_)
  else raise (ArgumentError 1).

Definition unknown_context_message (context : string) : string :=
  "Unkown context " ++ context ++ " used, should be either client, server or partner".

Definition error_text (error : Z) (context : string) : M (list byte) :=
  if negb (in_contexts context) then
    raise (TypeError (unknown_context_message context))
  else
    logger_debug ("error text for " ++ HexString.of_Z error) ;;;
    let len_ := 1024 in
    let text := c_char_array len_ in
    library <- load_library None ;;
    text <- (if context =? "client" then
               call_ErrorText EP_Cli_ErrorText library error text len_
             else if context =? "server" then
               call_ErrorText EP_Srv_ErrorText library error text len_
             else if context =? "partner" then
               call_ErrorText EP_Par_ErrorText library error text len_
             else ret text) ;;
    ret (value len_ text).

Definition check_error (code : Z) (context : string) : M unit :=
  if negb (code =? 0)%Z && negb (code =? 1)%Z then
    error <- error_text code context ;;
    logger_error error ;;;
    raise (RuntimeError (ArgBytes error))
  else ret tt.

(** [error_hadler_decorator(context)(func)]: the wrapper around a function
    that returns a result code. *)
Definition error_hadler_decorator {Args : Type} (context : string)
    (func : Args -> M Z) : Args -> M Z :=
  fun args =>
    code <- func args ;;
    check_error code context ;;;
    ret code.

(** ** Observations on the process state *)

(** The handle the singleton holds, if the library has been opened. *)
Definition loaded (p : Proc) : option CDLL :=
  match _instance p with
  | Some self => cdll self
  | None => None
  end.

(** The cached library location. *)
Definition cached_location (p : Proc) : option string :=
  match _instance p with
  | Some self => lib_location self
  | None => None
  end.

(** The object [__new__] hands to [__init__]. *)
Definition current_self (p : Proc) : Snap7Library :=
  match _instance p with
  | Some self => self
  | None => {| lib_location := None; cdll := None |}
  end.

Definition is_open (e : Event) : bool :=
  match e with
  | EvLoadLibrary _ true => true
  | _ => false
  end.

Definition is_driver_call (e : Event) : bool :=
  match e with
  | EvErrorText _ _ _ => true
  | _ => false
  end.

(** How many times the native library has been opened. *)
Definition opens (p : Proc) : nat := List.length (filter is_open (events p)).

Definition add_events (evs : list Event) (p : Proc) : Proc :=
  {| _instance := _instance p; events := (events p ++ evs)%list; log := log p |}.

(** ** The resolution order, as the specification words it *)

(** The binary bundled with the package, by platform: [libsnap7.dylib] on
    macOS, [snap7.dll] on Windows, [libsnap7.so] anywhere else, in the
    directory [lib] next to the module. *)
Definition bundled_path (env : Env) : string :=
  path_join env (path_join env (package_dir env) "lib")
    (if sys_platform env =? "darwin" then "libsnap7.dylib"
     else if sys_platform env =? "win32" then "snap7.dll"
     else "libsnap7.so").

(** The five candidates, each with the probes that trying it costs. *)
Definition package_path (env : Env) : string :=
  path_join env (path_join env (package_dir env) "lib") (package_lib (sys_platform env)).

Definition package_candidate (env : Env) : option string * list Event :=
  if os_path_exists env (package_path env) then
    if os_path_isfile env (package_path env) then
      (Some (package_path env), [EvExists (package_path env); EvIsFile (package_path env)])
    else (None, [EvExists (package_path env); EvIsFile (package_path env)])
  else (None, [EvExists (package_path env)]).

Definition local_path (env : Env) (fname : string) : string :=
  path_join env (cwd env) (fname ++ ".dll").

Definition local_candidate (env : Env) (fname : string) : option string * list Event :=
  (if os_path_exists env (local_path env fname) then Some (local_path env fname) else None,
   [EvExists (local_path env fname)]).

Definition candidates (env : Env) (cached arg : option string)
  : list (option string * list Event) :=
  [ (arg, []);
    (cached, []);
    package_candidate env;
    (find_library env "snap7", [EvFindLibrary "snap7"]);
    local_candidate env "snap7" ].

(** Try the candidates from left to right and stop at the first that
    resolves; the probes of every candidate tried are collected. *)
Fixpoint try_in_order (cs : list (option string * list Event))
  : option string * list Event :=
  match cs with
  | [] => (None, [])
  | (c, probes) :: rest =>
      if truthy c then (c, probes)
      else
        match rest with
        | [] => (c, probes)
        | _ :: _ => let (r, more) := try_in_order rest in (r, (probes ++ more)%list)
        end
  end.

(** A candidate that does not resolve: [None] or the empty string. *)
Definition unresolved (c : option string * list Event) : Prop := truthy (fst c) = false.

(** What the first [Snap7Library(arg)] of a process amounts to, given the
    cached location: the result, the attributes the singleton is left with
    and the events performed. *)
Definition first_load (env : Env) (cached arg : option string)
  : result Snap7Library * Snap7Library * list Event :=
  let (loc, probes) := try_in_order (candidates env cached arg) in
  match loc with
  | Some path =>
      if truthy loc then
        match LoadLibrary env path with
        | Some h =>
            (Ok {| lib_location := loc; cdll := Some h |},
             {| lib_location := loc; cdll := Some h |},
             (probes ++ [EvLoadLibrary path true])%list)
        | None =>
            (Raise (OSError path),
             {| lib_location := loc; cdll := None |},
             (probes ++ [EvLoadLibrary path false])%list)
        end
      else
        (Raise (RuntimeError (ArgStr not_found_message)),
         {| lib_location := loc; cdll := None |}, probes)
  | None =>
      (Raise (RuntimeError (ArgStr not_found_message)),
       {| lib_location := None; cdll := None |}, probes)
  end.

(** The role-specific error-text entry point. *)
Definition role_entry (role : string) : option EntryPoint :=
  if role =? "client" then Some EP_Cli_ErrorText
  else if role =? "server" then Some EP_Srv_ErrorText
  else if role =? "partner" then Some EP_Par_ErrorText
  else None.

(** The decoded message of [code] in [role]: what the role's entry point
    leaves in a zeroed buffer of 1024 bytes, up to the first NUL. *)
Definition decoded_message (library : CDLL) (ep : EntryPoint) (code : Z) : list byte :=
  value 1024 (entry ep library code (c_char_array 1024) 1024).

(** ** Histories of a process *)

(** The calls into the module that can reach the loader. *)
Inductive Call : Type :=
| CallSnap7Library (arg : option string)
| CallLoadLibrary (arg : option string)
| CallErrorText (error : Z) (context : string)
| CallCheckError (code : Z) (context : string).

(** The process state a call leaves, whether it returns or raises. *)
Definition run_call (c : Call) (env : Env) (p : Proc) : Proc :=
  match c with
  | CallSnap7Library arg => snd (Snap7Library_call arg env p)
  | CallLoadLibrary arg => snd (load_library arg env p)
  | CallErrorText error context => snd (error_text error context env p)
  | CallCheckError code context => snd (check_error code context env p)
  end.

(** A history: calls in order, each under the operating system's answers
    at the time it is made. *)
Fixpoint run_calls (history : list (Env * Call)) (p : Proc) : Proc :=
  match history with
  | [] => p
  | (env, c) :: rest => run_calls rest (run_call c env p)
  end.

(** The loader's invariant: the library has been opened once if the
    singleton holds a handle, and never otherwise. *)
Definition opened_once (p : Proc) : Prop :=
  opens p = match loaded p with Some _ => 1%nat | None => 0%nat end.

(** [q] extends [p] without disturbing the loader: the invariant survives
    and a handle that was held is still held, with its location. *)
Definition undisturbed (p q : Proc) : Prop :=
  (opened_once p -> opened_once q)
  /\ (forall h, loaded p = Some h ->
        loaded q = Some h /\ cached_location q = cached_location p).

(** ** A concrete process for running the definitions *)

Definition demo_text (tag : byte) : ErrorTextFn :=
  fun code text len_ =>
    if (code =? 0)%Z then ("O"%byte :: "K"%byte :: skipn 2 text)%list
    else (tag :: "!"%byte :: skipn 2 text)%list.

Definition demo_cdll : CDLL :=
  {| cdll_name := "/usr/lib/libsnap7.so";
     Cli_ErrorText := demo_text "C"%byte;
     Srv_ErrorText := demo_text "S"%byte;
     Par_ErrorText := demo_text "P"%byte |}.

(** A Linux host with the library installed system-wide only. *)
Definition demo_env : Env :=
  {| long_bits := 64;
     sys_platform := "linux";
     package_dir := "/site-packages/snap7";
     cwd := "/home/user";
     path_join := fun a b => a ++ "/" ++ b;
     os_path_exists := fun _ => false;
     os_path_isfile := fun _ => false;
     find_library := fun name => if name =? "snap7" then Some "libsnap7.so" else None;
     LoadLibrary := fun path =>
       if path =? "libsnap7.so" then Some demo_cdll
       else if path =? "/opt/other/libsnap7.so" then
         Some {| cdll_name := path;
                 Cli_ErrorText := demo_text "c"%byte;
                 Srv_ErrorText := demo_text "s"%byte;
                 Par_ErrorText := demo_text "p"%byte |}
       else None |}.

(** A host where the library is nowhere to be found. *)
Definition bare_env : Env :=
  {| long_bits := 64;
     sys_platform := "linux";
     package_dir := "/site-packages/snap7";
     cwd := "/home/user";
     path_join := fun a b => a ++ "/" ++ b;
     os_path_exists := fun _ => false;
     os_path_isfile := fun _ => false;
     find_library := fun _ => None;
     LoadLibrary := fun _ => None |}.

(** A decorated native call that is accepted and left in flight: it answers
    1. *)
Definition demo_as_b_send (r_id : Z) : M Z :=
  logger_debug "as_b_send" ;;; ret 1.

Definition demo_loaded : Proc := snd (load_library None demo_env fresh_process).

(** A process that first looks for the library in vain, then finds it on a
    hard error, then is asked for another path. *)
Definition demo_history : list (Env * Call) :=
  [ (bare_env, CallLoadLibrary None);
    (demo_env, CallCheckError 5 "client");
    (demo_env, CallLoadLibrary (Some "/opt/other/libsnap7.so")) ].

(** * The Partner endpoint

    [snap7/partner.py] and [snap7/types.py] are not among the sources: the
    endpoint below follows the specification's sections 3, 4.3, 4.5 and 4.6
    and its error taxonomy, section 7. *)

Module Partner.

(** Modelled from the spec: the failures of section 7 that an endpoint
    operation can surface ([snap7/partner.py] is missing). *)
Inductive Failure : Type :=
| AllocationFailed
| HardError (code : Z) (message : list byte)
| Timeout
| NoPendingOperation
| InvalidParameter
| EndpointDestroyed.

Inductive outcome (A : Type) : Type :=
| Done (a : A)
| Fail (f : Failure).

Arguments Done {A} a.
Arguments Fail {A} f.

(** Modelled from the spec: the parameter keys of section 3
    ([snap7/types.py] is missing, and with it their integer values). *)
Inductive ParamKey : Type :=
| LocalPort | RemotePort | PingTimeout | SendTimeout | RecvTimeout
| SrcRef | DstRef | SrcTSap | PDURequest | WorkInterval
| BSendTimeout | BRecvTimeout | RecoveryTime | KeepAliveTime | MaxClients.

Definition ParamKey_eqb (a b : ParamKey) : bool :=
  match a, b with
  | LocalPort, LocalPort | RemotePort, RemotePort | PingTimeout, PingTimeout
  | SendTimeout, SendTimeout | RecvTimeout, RecvTimeout | SrcRef, SrcRef
  | DstRef, DstRef | SrcTSap, SrcTSap | PDURequest, PDURequest
  | WorkInterval, WorkInterval | BSendTimeout, BSendTimeout
  | BRecvTimeout, BRecvTimeout | RecoveryTime, RecoveryTime
  | KeepAliveTime, KeepAliveTime | MaxClients, MaxClients => true
  | _, _ => false
  end.

(** Modelled from the spec: the applicability tag of a key for a role,
    section 3 ([snap7/partner.py] is missing). *)
Inductive Applicability : Type :=
| Readable
| Writable
| Both
| Neither.

Definition readable (a : Applicability) : bool :=
  match a with Readable | Both => true | Writable | Neither => false end.

Definition writable (a : Applicability) : bool :=
  match a with Writable | Both => true | Readable | Neither => false end.

(** Modelled from the spec: the Parameter Registry, one tag per key
    ([snap7/partner.py] is missing). *)
Record Registry : Type := mkRegistry {
  applicability : ParamKey -> Applicability
}.

(** Modelled from the spec: the registry of the partner role
    ([snap7/partner.py] is missing). Sections 3 and 4.6 name the keys that
    are restricted for a Partner: [MaxClients] is neither readable nor
    writable and [RemotePort] is read-only; the other keys of section 3 are
    partner-applicable without restriction. *)
Definition partner_registry : Registry :=
  {| applicability := fun k =>
       match k with
       | MaxClients => Neither
       | RemotePort => Readable
       | _ => Both
       end |}.

(** The requests that reach the native driver. *)
Inductive DriverCall : Type :=
| Par_Create
| Par_Destroy (h : Z)
| Par_WaitAsBSendCompletion (h : Z) (timeout_ms : Z)
| Par_GetParam (h : Z) (key : ParamKey)
| Par_SetParam (h : Z) (key : ParamKey) (value : Z).

(** The native side: the loaded driver, the requests it has received and
    the parameter values it keeps for each native object. *)
Record World : Type := mkWorld {
  driver : CDLL;
  trace : list DriverCall;
  store : Z -> ParamKey -> Z
}.

Definition reach (c : DriverCall) (w : World) : World :=
  {| driver := driver w; trace := (trace w ++ [c])%list; store := store w |}.

Definition write (h : Z) (key : ParamKey) (value : Z) (w : World) : World :=
  {| driver := driver w;
     trace := trace w;
     store := fun h' k' =>
       if (h' =? h)%Z && ParamKey_eqb k' key then value else store w h' k' |}.

(** Modelled from the spec: the state machine of an asynchronous operation,
    section 4.5: Idle, Pending, Completed ([snap7/partner.py] is missing). *)
Inductive Async : Type :=
| Idle
| Pending
| Completed (result : Z).

(** Modelled from the spec: the Partner Endpoint of section 3, an owned
    native handle (absent once destroyed) and the state of its send and of
    its receive ([snap7/partner.py] is missing). *)
Record Endpoint : Type := mkEndpoint {
  handle : option Z;
  send : Async;
  recv : Async
}.

Definition live (ep : Endpoint) : bool :=
  match handle ep with Some _ => true | None => false end.

(** Modelled from the spec: [check], section 4.2: a hard error carries the
    message decoded for the partner role, codes 0 and 1 are returned as they
    are ([snap7/partner.py] is missing). *)
Definition check (code : Z) (w : World) : outcome Z :=
  if negb (code =? 0)%Z && negb (code =? 1)%Z then
    Fail (HardError code (decoded_message (driver w) EP_Par_ErrorText code))
  else Done code.

(** Modelled from the spec: [create], section 4.3. [answer] is the handle
    the driver returns, 0 for a null handle ([snap7/partner.py] is
    missing). *)
Definition create (answer : Z) (w : World) : outcome Endpoint * World :=
  if (answer =? 0)%Z then (Fail AllocationFailed, reach Par_Create w)
  else (Done {| handle := Some answer; send := Idle; recv := Idle |},
        reach Par_Create w).

(** Modelled from the spec: [destroy], section 4.3: frees the native object
    if the handle is live and clears the handle; on a destroyed endpoint it
    does nothing ([snap7/partner.py] is missing). *)
Definition destroy (ep : Endpoint) (w : World) : outcome unit * Endpoint * World :=
  match handle ep with
  | Some h =>
      (Done tt, {| handle := None; send := send ep; recv := recv ep |},
       reach (Par_Destroy h) w)
  | None => (Done tt, ep, w)
  end.

(** Modelled from the spec: the automatic release of section 4.3, run when
    the owner lets go of the endpoint; it is [destroy]
    ([snap7/partner.py] is missing). *)
Definition release (ep : Endpoint) (w : World) : outcome unit * Endpoint * World :=
  destroy ep w.

(** Modelled from the spec: [wait_as_b_send_completion], section 4.5.
    [finished] is what the driver reports within [timeout_ms] when it is
    asked: nothing, or the result of the send ([snap7/partner.py] is
    missing). *)
Definition wait_as_b_send_completion (ep : Endpoint) (timeout_ms : Z)
    (finished : option Z) (w : World) : outcome Z * Endpoint * World :=
  match handle ep with
  | None => (Fail EndpointDestroyed, ep, w)
  | Some h =>
      match send ep with
      | Idle => (Fail NoPendingOperation, ep, w)
      | Pending =>
          let w := reach (Par_WaitAsBSendCompletion h timeout_ms) w in
          match finished with
          | None => (Fail Timeout, ep, w)
          | Some result =>
              (check result w,
               {| handle := handle ep; send := Completed result; recv := recv ep |}, w)
          end
      | Completed result => (check result w, ep, w)
      end
  end.

(** Modelled from the spec: [get_param], section 4.6: the key is validated
    against the registry of the partner role before the driver is asked
    ([snap7/partner.py] is missing). *)
Definition get_param (ep : Endpoint) (key : ParamKey) (w : World)
  : outcome Z * World :=
  match handle ep with
  | None => (Fail EndpointDestroyed, w)
  | Some h =>
      if readable (applicability partner_registry key) then
        (Done (store w h key), reach (Par_GetParam h key) w)
      else (Fail InvalidParameter, w)
  end.

(** Modelled from the spec: [set_param], section 4.6
    ([snap7/partner.py] is missing). *)
Definition set_param (ep : Endpoint) (key : ParamKey) (value : Z)
    (w : World) : outcome unit * World :=
  match handle ep with
  | None => (Fail EndpointDestroyed, w)
  | Some h =>
      if writable (applicability partner_registry key) then
        (Done tt, write h key value (reach (Par_SetParam h key value) w))
      else (Fail InvalidParameter, w)
  end.




(** The two ways an endpoint is let go of. *)
Inductive Letting : Type :=
| Destroy
| Release.

Definition let_go (l : Letting) (ep : Endpoint) (w : World)
  : outcome unit * Endpoint * World :=
  match l with
  | Destroy => destroy ep w
  | Release => release ep w
  end.

(** A sequence of [destroy] calls and releases on one endpoint; the result
    tells whether every one of them returned. *)
Fixpoint let_go_all (ls : list Letting) (ep : Endpoint) (w : World)
  : bool * Endpoint * World :=
  match ls with
  | [] => (true, ep, w)
  | l :: rest =>
      match let_go l ep w with
      | (Done _, ep', w') => let_go_all rest ep' w'
      | (Fail _, ep', w') => (false, ep', w')
      end
  end.

Definition is_free (h : Z) (c : DriverCall) : bool :=
  match c with
  | Par_Destroy h' => (h' =? h)%Z
  | _ => false
  end.

(** How often the native object [h] has been freed. *)
Definition frees (h : Z) (w : World) : nat :=
  List.length (filter (is_free h) (trace w)).

Definition demo_world : World :=
  {| driver := demo_cdll; trace := []; store := fun _ _ => 0 |}.

(** An endpoint whose last asynchronous send has completed with code 0. *)
Definition demo_completed : Endpoint :=
  {| handle := Some 7; send := Completed 0; recv := Idle |}.

(** The endpoint [create] yields when the driver answers with handle 7. *)
Definition demo_endpoint : Endpoint :=
  {| handle := Some 7; send := Idle; recv := Idle |}.

End Partner.

(** * The rest of [common.py] *)

(** ** The pattern [ipv4] *)

(** The regular expressions the pattern is made of, with the matcher of
    Python's [re]: alternatives are tried from left to right and a later one
    is taken up when the rest of the pattern fails. The pattern names
    characters of the 8-bit range only, so strings are taken over that
    range. *)
Module Re.

Inductive regex : Type :=
| Lit (c : ascii)
| Range (lo hi : ascii)
| Cat (r s : regex)
| Alt (r s : regex)
| Rep (r : regex) (n : nat).

Definition in_range (lo hi c : ascii) : bool :=
  (nat_of_ascii lo <=? nat_of_ascii c)%nat && (nat_of_ascii c <=? nat_of_ascii hi)%nat.

(** [run r s k]: match [r] at the start of [s] and hand what is left to the
    rest of the pattern, [k]. *)
Fixpoint run (r : regex) (s : string) (k : string -> bool) : bool :=
  match r with
  | Lit c =>
      match s with
      | String x t => Ascii.eqb x c && k t
      | EmptyString => false
      end
  | Range lo hi =>
      match s with
      | String x t => in_range lo hi x && k t
      | EmptyString => false
      end
  | Cat r1 r2 => run r1 s (fun t => run r2 t k)
  | Alt r1 r2 => run r1 s k || run r2 s k
  | Rep r1 n =>
      (fix rep (n : nat) (s : string) : bool :=
         match n with
         | O => k s
         | S n' => run r1 s (rep n')
         end) n s
  end.

(** [$] without [re.MULTILINE]: the end of the string, or just before a
    newline that ends the string. *)
Definition dollar (rest : string) : bool :=
  (rest =? "") || (rest =? String "010" "").

(** [re.match] of a pattern [^r$]. *)
Definition re_match (r : regex) (s : string) : bool := run r s dollar.

(** [re.fullmatch] of a pattern [^r$]: the match has to end where the string
    ends. *)
Definition re_fullmatch (r : regex) (s : string) : bool :=
  run r s (fun rest => dollar rest && (rest =? "")).

(** The characters of a range, in order. *)
Definition chars (lo hi : ascii) : list ascii :=
  map ascii_of_nat (seq (nat_of_ascii lo) (S (nat_of_ascii hi) - nat_of_ascii lo)).

(** Every string of [a] followed by every string of [b]. *)
Definition product (a b : list string) : list string :=
  flat_map (fun x => map (fun y => x ++ y) b) a.

Fixpoint power (a : list string) (n : nat) : list string :=
  match n with
  | O => [""]
  | S n' => product a (power a n')
  end.

(** The strings a regular expression stands for: finitely many, since there
    is no unbounded repetition. *)
Fixpoint enum (r : regex) : list string :=
  match r with
  | Lit c => [String c ""]
  | Range lo hi => map (fun c => String c "") (chars lo hi)
  | Cat r1 r2 => product (enum r1) (enum r2)
  | Alt r1 r2 => (enum r1 ++ enum r2)%list
  | Rep r1 n => power (enum r1) n
  end.

End Re.

(** [([0-9]|[1-9][0-9]|1[0-9]{2}|2[0-4][0-9]|25[0-5])] *)
Definition octet : Re.regex :=
  Re.Alt (Re.Range "0" "9")
    (Re.Alt (Re.Cat (Re.Range "1" "9") (Re.Range "0" "9"))
       (Re.Alt (Re.Cat (Re.Lit "1") (Re.Rep (Re.Range "0" "9") 2))
          (Re.Alt (Re.Cat (Re.Lit "2") (Re.Cat (Re.Range "0" "4") (Re.Range "0" "9")))
             (Re.Cat (Re.Lit "2") (Re.Cat (Re.Lit "5") (Re.Range "0" "5")))))).

(** [ipv4], between its [^] and its [$]: [(octet\.){3}octet]. *)
Definition ipv4 : Re.regex :=
  Re.Cat (Re.Rep (Re.Cat octet (Re.Lit ".")) 3) octet.

(** A number in decimal, without leading zeros. *)
Definition decimal (n : nat) : string := NilZero.string_of_uint (Nat.to_uint n).

(** The dotted quad of four numbers. *)
Definition dotted_quad (a b c d : nat) : string :=
  decimal a ++ "." ++ decimal b ++ "." ++ decimal c ++ "." ++ decimal d.

Definition octets : list string := map decimal (seq 0 256).

(** ** [ADict] *)

(** A [dict] with its keys in insertion order, read and written through
    attributes: [__getattr__] is [dict.__getitem__] and [__setattr__] is
    [dict.__setitem__]. *)
Module ADict.

Definition t (V : Type) : Type := list (string * V).

Definition keys {V : Type} (d : t V) : list string := map fst d.

(** [dict.__getitem__]: the value, or [None] for a [KeyError]. *)
Fixpoint getitem {V : Type} (d : t V) (key : string) : option V :=
  match d with
  | [] => None
  | (k, v) :: rest => if k =? key then Some v else getitem rest key
  end.

(** [dict.__setitem__]: a key that is there keeps its place, a new key goes
    to the end. *)
Fixpoint setitem {V : Type} (d : t V) (key : string) (value : V) : t V :=
  match d with
  | [] => [(key, value)]
  | (k, v) :: rest =>
      if k =? key then (key, value) :: rest
      else (k, v) :: setitem rest key value
  end.

(** What reading an attribute gives: something the object has anyway (a
    method of [dict], an attribute of the class), an item, or the
    [KeyError] of [dict.__getitem__]. *)
Inductive got (V : Type) : Type :=
| Attribute (name : string)
| Item (v : V)
| KeyError (key : string).

Arguments Attribute {V} name.
Arguments Item {V} v.
Arguments KeyError {V} key.

(** [d.name]. [ordinary] tells the names ordinary attribute lookup finds;
    [__getattr__] is called for the others only. *)
Definition getattr {V : Type} (ordinary : string -> bool) (d : t V) (name : string) : got V :=
  if ordinary name then Attribute name
  else
    match getitem d name with
    | Some v => Item v
    | None => KeyError name
    end.

(** [d.name = value]: [__setattr__] is called for every name. *)
Definition setattr {V : Type} (d : t V) (name : string) (value : V) : t V :=
  setitem d name value.

End ADict.

(** ** A byte string in a buffer *)

(** What a driver that writes the C string [msg] leaves in the buffer. *)
Definition write_c_string (msg : list byte) (text : list byte) : list byte :=
  (msg ++ x00 :: skipn (S (List.length msg)) text)%list.

(** * Running the definitions *)

Example demo_loaded_events :
  events demo_loaded =
  [ EvExists "/site-packages/snap7/lib/libsnap7.so";
    EvFindLibrary "snap7";
    EvLoadLibrary "libsnap7.so" true ].
Proof. reflexivity. Qed.

Example demo_check_error_hard :
  fst (check_error 5 "partner" demo_env fresh_process)
  = Raise (RuntimeError (ArgBytes ["P"%byte; "!"%byte])).
Proof. reflexivity. Qed.

Example demo_check_error_soft :
  check_error 1 "partner" demo_env fresh_process = (Ok tt, fresh_process).
Proof. reflexivity. Qed.

Example demo_check_error_negative :
  fst (check_error (-3) "server" demo_env demo_loaded)
  = Raise (RuntimeError (ArgBytes ["S"%byte; "!"%byte])).
Proof. reflexivity. Qed.

Example demo_error_text_log :
  log (snd (error_text (-26) "client" demo_env fresh_process))
  = [LogDebug "error text for -0x1a"].
Proof. reflexivity. Qed.

Example demo_bare :
  fst (load_library None bare_env fresh_process)
  = Raise (RuntimeError (ArgStr not_found_message)).
Proof. reflexivity. Qed.

(** ** The process state under the monad's primitives *)

Lemma add_events_nil (p : Proc) : add_events [] p = p.
Proof. destruct p; unfold add_events; simpl. now rewrite app_nil_r. Qed.

Lemma add_event_as_events (e : Event) (p : Proc) : add_event e p = add_events [e] p.
Proof. reflexivity. Qed.

Lemma add_events_app (xs ys : list Event) (p : Proc) :
  add_events ys (add_events xs p) = add_events (xs ++ ys) p.
Proof. unfold add_events; simpl. now rewrite app_assoc. Qed.

Lemma truthy_some (o : option string) :
  truthy o = true -> exists path, o = Some path /\ path <> "".
Proof.
  destruct o as [s|]; simpl; [|discriminate].
  intros H. exists s. split; [reflexivity|].
  intros ->. discriminate.
Qed.

Ltac run_monad :=
  unfold py_or, find_in_package, find_library_, find_locally, exists_, isfile,
         emit, ask, bind, ret, raise, setattr, logger_debug, logger_error; cbn.

(** Replace every test whose outcome is known and evaluate. *)
Ltac settle :=
  cbn;
  repeat match goal with
         | H : ?t = true |- context [?t] => rewrite H; cbn
         | H : ?t = false |- context [?t] => rewrite H; cbn
         end.

(** Gather the events added one by one into a single extension. *)
Ltac gather :=
  repeat rewrite add_event_as_events;
  repeat rewrite add_events_app;
  cbn; try reflexivity;
  try (destruct (negb _); reflexivity).

(** The assignment's right-hand side implements the resolution order: it
    yields what [try_in_order] yields and probes what [try_in_order] probes,
    touching nothing else. *)
Lemma resolve_location_spec (env : Env) (p : Proc) (self : Snap7Library) (arg : option string) :
  resolve_location self arg env p =
  (Ok (fst (try_in_order (candidates env (lib_location self) arg))),
   add_events (snd (try_in_order (candidates env (lib_location self) arg))) p).
Proof.
  unfold resolve_location, candidates, package_candidate, local_candidate,
         package_path, local_path.
  run_monad.
  destruct (truthy arg) eqn:Ea; settle.
  { now rewrite add_events_nil. }
  destruct (truthy (lib_location self)) eqn:Ec; settle.
  { now rewrite add_events_nil. }
  destruct (os_path_exists env (path_join env (path_join env _ _) _)) eqn:Ex; settle.
  - destruct (os_path_isfile env _) eqn:Ef; settle.
    + destruct (String.eqb _ "") eqn:En; settle; [|gather].
      destruct (truthy (find_library env "snap7")) eqn:El; settle; [gather|].
      destruct (os_path_exists env (path_join env (cwd env) _)) eqn:Ey; settle; gather.
    + destruct (truthy (find_library env "snap7")) eqn:El; settle; [gather|].
      destruct (os_path_exists env (path_join env (cwd env) _)) eqn:Ey; settle; gather.
  - destruct (truthy (find_library env "snap7")) eqn:El; settle; [gather|].
    destruct (os_path_exists env (path_join env (cwd env) _)) eqn:Ey; settle; gather.
Qed.

(** ** The singleton *)

Lemma loaded_current_self (p : Proc) : cdll (current_self p) = loaded p.
Proof. unfold current_self, loaded. now destruct (_instance p). Qed.

Lemma cached_current_self (p : Proc) : lib_location (current_self p) = cached_location p.
Proof. unfold current_self, cached_location. now destruct (_instance p). Qed.

Lemma Snap7Library_new_spec (env : Env) (p : Proc) (arg : option string) :
  Snap7Library_new arg env p = (Ok (current_self p), set_instance (current_self p) p).
Proof.
  unfold Snap7Library_new, current_self, set_instance.
  destruct p as [[self|] evs lg]; reflexivity.
Qed.

(** Once the handle is there, [Snap7Library(arg)] changes nothing. *)
Lemma Snap7Library_call_loaded (env : Env) (p : Proc) (arg : option string) (h : CDLL) :
  loaded p = Some h ->
  Snap7Library_call arg env p = (Ok (current_self p), p).
Proof.
  intros H. unfold Snap7Library_call, bind.
  rewrite Snap7Library_new_spec.
  unfold Snap7Library_init. rewrite loaded_current_self, H.
  unfold ret, set_instance, current_self. unfold loaded in H.
  destruct p as [[self|] evs lg]; [reflexivity|discriminate].
Qed.

Lemma load_library_loaded (env : Env) (p : Proc) (arg : option string) (h : CDLL) :
  loaded p = Some h ->
  load_library arg env p = (Ok h, p).
Proof.
  intros H. unfold load_library, bind.
  rewrite (Snap7Library_call_loaded env p arg h H).
  now rewrite loaded_current_self, H.
Qed.

(** Before that, it is [first_load]. *)
Lemma Snap7Library_call_first (env : Env) (p : Proc) (arg : option string) :
  loaded p = None ->
  Snap7Library_call arg env p =
  (fst (fst (first_load env (cached_location p) arg)),
   set_instance (snd (fst (first_load env (cached_location p) arg)))
                (add_events (snd (first_load env (cached_location p) arg)) p)).
Proof.
  intros H. unfold Snap7Library_call, bind at 1.
  rewrite Snap7Library_new_spec.
  unfold Snap7Library_init. rewrite loaded_current_self, H.
  unfold bind at 1. rewrite resolve_location_spec.
  rewrite cached_current_self. unfold first_load.
  destruct (try_in_order _) as [loc probes]; cbn [fst snd].
  destruct loc as [path|]; [|reflexivity].
  destruct (truthy (Some path)) eqn:Et; [|reflexivity].
  unfold bind, setattr, LoadLibrary_, ret; cbn.
  destruct (LoadLibrary env path) as [h|]; cbn;
    unfold set_instance, add_events, add_event; cbn;
    now rewrite app_assoc.
Qed.

(** ** The error translator *)

Lemma in_contexts_role_entry (context : string) :
  in_contexts context = true <-> exists ep, role_entry context = Some ep.
Proof.
  unfold in_contexts, contexts, role_entry; cbn.
  destruct (context =? "client"); cbn; [split; eauto|].
  destruct (context =? "server"); cbn; [split; eauto|].
  destruct (context =? "partner"); cbn; [split; eauto|].
  split; [discriminate|]. intros [ep H]. discriminate.
Qed.

Lemma soft_codes (code : Z) :
  negb (code =? 0)%Z && negb (code =? 1)%Z = false <-> code = 0 \/ code = 1.
Proof.
  destruct (Z.eqb_spec code 0), (Z.eqb_spec code 1); cbn; split; intros; auto; try lia; discriminate.
Qed.

Lemma hard_codes (code : Z) :
  negb (code =? 0)%Z && negb (code =? 1)%Z = true <-> code <> 0 /\ code <> 1.
Proof.
  destruct (Z.eqb_spec code 0), (Z.eqb_spec code 1); cbn; split; intros; try lia; auto; discriminate.
Qed.

(** Codes 0 and 1 leave [check_error] at once. *)
Lemma check_error_skip (env : Env) (p : Proc) (code : Z) (context : string) :
  code = 0 \/ code = 1 ->
  check_error code context env p = (Ok tt, p).
Proof.
  intros H. unfold check_error. apply soft_codes in H. now rewrite H.
Qed.

(** An unknown context stops [error_text] before anything else happens. *)
Lemma error_text_unknown (env : Env) (p : Proc) (error : Z) (context : string) :
  in_contexts context = false ->
  error_text error context env p =
  (Raise (TypeError (unknown_context_message context)), p).
Proof. intros H. unfold error_text. now rewrite H. Qed.

(** With a known context [error_text] logs, obtains the handle and calls the
    role's entry point once, unless [ctypes] refuses the code. *)
Lemma error_text_known (env : Env) (p : Proc) (error : Z) (context : string) (ep : EntryPoint) :
  role_entry context = Some ep ->
  error_text error context env p =
  match load_library None env (add_log (LogDebug ("error text for " ++ HexString.of_Z error)) p) with
  | (Ok library, p') =>
      if int_converts (long_bits env) error then
        (Ok (decoded_message library ep error), add_event (EvErrorText ep error 1024) p')
      else (Raise (ArgumentError 1), p')
  | (Raise e, p') => (Raise e, p')
  end.
Proof.
  intros Hr.
  assert (Hin : in_contexts context = true) by (apply in_contexts_role_entry; eauto).
  unfold error_text. rewrite Hin. cbn [negb].
  unfold bind at 1. unfold logger_debug at 1. unfold bind at 1.
  destruct (load_library None env _) as [[library|e] p']; [|reflexivity].
  unfold role_entry in Hr. unfold decoded_message.
  assert (Hcall : forall ep',
            (text <- call_ErrorText ep' library error (c_char_array 1024) 1024 ;;
             ret (value 1024 text)) env p'
            = if int_converts (long_bits env) error then
                (Ok (value 1024 (entry ep' library error (c_char_array 1024) 1024)),
                 add_event (EvErrorText ep' error 1024) p')
              else (Raise (ArgumentError 1), p')).
  { intros ep'. unfold call_ErrorText, bind, ask, emit, ret, raise.
    now destruct (int_converts (long_bits env) error). }
  destruct (context =? "client").
  { injection Hr as <-. apply Hcall. }
  destruct (context =? "server").
  { injection Hr as <-. apply Hcall. }
  destruct (context =? "partner").
  { injection Hr as <-. apply Hcall. }
  discriminate.
Qed.

(** [load_library] neither reads the log nor writes to it. *)
Lemma load_library_add_log (env : Env) (p : Proc) (arg : option string) (r : LogRecord) :
  load_library arg env (add_log r p) =
  (fst (load_library arg env p), add_log r (snd (load_library arg env p))).
Proof.
  destruct (loaded p) as [h|] eqn:Hl.
  - rewrite (load_library_loaded env p arg h Hl).
    now rewrite (load_library_loaded env (add_log r p) arg h).
  - unfold load_library, bind.
    rewrite (Snap7Library_call_first env p arg Hl).
    rewrite (Snap7Library_call_first env (add_log r p) arg) by exact Hl.
    change (cached_location (add_log r p)) with (cached_location p).
    destruct (first_load env (cached_location p) arg) as [[[self|e] s] evs]; cbn [fst snd];
      [destruct (cdll self)|]; reflexivity.
Qed.

Lemma int_converts_range (bits n : Z) :
  int_converts bits n = true <-> - 2 ^ (bits - 1) <= n < 2 ^ bits.
Proof.
  unfold int_converts. rewrite andb_true_iff, Z.leb_le, Z.ltb_lt. tauto.
Qed.

(** On the hard-error branch [check_error] is [error_text] followed by the
    log record and the [RuntimeError]. *)
Lemma check_error_hard (env : Env) (p : Proc) (code : Z) (context : string) :
  code <> 0 /\ code <> 1 ->
  check_error code context env p =
  match error_text code context env p with
  | (Ok error, p') => (Raise (RuntimeError (ArgBytes error)), add_log (LogError error) p')
  | (Raise e, p') => (Raise e, p')
  end.
Proof.
  intros H. apply hard_codes in H. unfold check_error. rewrite H.
  unfold bind, logger_error, raise.
  now destruct (error_text code context env p) as [[error|e] p'].
Qed.

(** The hard-error branch in full: what is raised and what is left behind,
    by whether the library loads and whether [ctypes] passes the code. *)
Lemma check_error_hard_known
    (env : Env) (p : Proc) (code : Z) (context : string) (ep : EntryPoint) :
  role_entry context = Some ep ->
  code <> 0 /\ code <> 1 ->
  check_error code context env p
  = match load_library None env p with
    | (Ok library, p') =>
        if int_converts (long_bits env) code then
          (Raise (RuntimeError (ArgBytes (decoded_message library ep code))),
           add_log (LogError (decoded_message library ep code))
             (add_event (EvErrorText ep code 1024)
                (add_log (LogDebug ("error text for " ++ HexString.of_Z code)) p')))
        else
          (Raise (ArgumentError 1),
           add_log (LogDebug ("error text for " ++ HexString.of_Z code)) p')
    | (Raise e, p') =>
        (Raise e, add_log (LogDebug ("error text for " ++ HexString.of_Z code)) p')
    end.
Proof.
  intros Hep H. rewrite (check_error_hard env p code context H).
  rewrite (error_text_known env p code context ep Hep).
  rewrite load_library_add_log.
  destruct (load_library None env p) as [[library|e] p']; cbn [fst snd]; [|reflexivity].
  now destruct (int_converts (long_bits env) code).
Qed.

(** C1, as stated, fails: a code outside the range [ctypes] converts, 2^64
    on a platform with a 64-bit [long], raises the [ArgumentError] of
    [ctypes] and no message is decoded, even with the library loaded and a
    valid role. *)
Lemma check_error_out_of_range_code_not_decoded :
  ~ (forall (env : Env) (p : Proc) (code : Z) (context : string),
       in_contexts context = true ->
       code <> 0 /\ code <> 1 ->
       exists msg, fst (check_error code context env p) = Raise (RuntimeError (ArgBytes msg))).
Proof.
  intros H.
  destruct (H demo_env demo_loaded (2 ^ 64) "client" eq_refl) as [msg Hmsg].
  - split; discriminate.
  - vm_compute in Hmsg. discriminate Hmsg.
Qed.

(** C1, amended: for a role among client, server and partner, [check_error]
    raises exactly when the code is neither 0 nor 1. Codes 0 and 1 return
    and leave the process as it was; every other integer, negative ones
    included, raises. When the driver handle is obtained, the exception is
    the [RuntimeError] carrying the message decoded from the role's entry
    point if the code is in the range [ctypes] converts
    (-2^(w-1) <= code < 2^w for a [long] of w bits), and the [ArgumentError]
    of [ctypes] if it is not; when the handle cannot be obtained it is the
    loader's own exception. *)
Theorem check_error_raises_iff_hard
    (env : Env) (p : Proc) (code : Z) (context : string) :
  in_contexts context = true ->
  (raised (check_error code context env p) <-> code <> 0 /\ code <> 1)
  /\ (code = 0 \/ code = 1 -> check_error code context env p = (Ok tt, p))
  /\ (code <> 0 /\ code <> 1 ->
      (forall library, fst (load_library None env p) = Ok library ->
         exists ep, role_entry context = Some ep
           /\ (- 2 ^ (long_bits env - 1) <= code < 2 ^ long_bits env ->
               fst (check_error code context env p)
               = Raise (RuntimeError (ArgBytes (decoded_message library ep code))))
           /\ (~ (- 2 ^ (long_bits env - 1) <= code < 2 ^ long_bits env) ->
               fst (check_error code context env p) = Raise (ArgumentError 1)))
      /\ (forall e, fst (load_library None env p) = Raise e ->
            fst (check_error code context env p) = Raise e)).
Proof.
  intros Hin.
  destruct (proj1 (in_contexts_role_entry context) Hin) as [ep Hep].
  pose proof (check_error_hard_known env p code context ep Hep) as Hhard.
  split; [|split].
  - split.
    + intros [e He].
      destruct (Z.eq_dec code 0) as [->|H0]; [discriminate He|].
      destruct (Z.eq_dec code 1) as [->|H1]; [discriminate He|].
      now split.
    + intros H. rewrite (Hhard H).
      destruct (load_library None env p) as [[library|e] p'];
        [destruct (int_converts (long_bits env) code)|]; eexists; reflexivity.
  - apply check_error_skip.
  - intros H. rewrite (Hhard H). split.
    + intros library Hl. exists ep. split; [exact Hep|].
      destruct (load_library None env p) as [[library'|e] p']; cbn in Hl; [|discriminate].
      injection Hl as ->. split; intros Hr.
      * now rewrite (proj2 (int_converts_range _ _) Hr).
      * destruct (int_converts (long_bits env) code) eqn:E; [|reflexivity].
        contradiction Hr. now apply int_converts_range.
    + intros e Hl.
      destruct (load_library None env p) as [[library'|e'] p']; cbn in Hl; [discriminate|].
      now injection Hl as ->.
Qed.

Lemma check_error_raises_iff_hard_witness :
  in_contexts "partner" = true
  /\ ((raised (check_error (-5) "partner" demo_env fresh_process) <-> -5 <> 0 /\ -5 <> 1)
      /\ (-5 = 0 \/ -5 = 1 ->
          check_error (-5) "partner" demo_env fresh_process = (Ok tt, fresh_process))
      /\ (-5 <> 0 /\ -5 <> 1 ->
          (forall library, fst (load_library None demo_env fresh_process) = Ok library ->
             exists ep, role_entry "partner" = Some ep
               /\ (- 2 ^ (long_bits demo_env - 1) <= -5 < 2 ^ long_bits demo_env ->
                   fst (check_error (-5) "partner" demo_env fresh_process)
                   = Raise (RuntimeError (ArgBytes (decoded_message library ep (-5)))))
               /\ (~ (- 2 ^ (long_bits demo_env - 1) <= -5 < 2 ^ long_bits demo_env) ->
                   fst (check_error (-5) "partner" demo_env fresh_process)
                   = Raise (ArgumentError 1)))
          /\ (forall e, fst (load_library None demo_env fresh_process) = Raise e ->
                fst (check_error (-5) "partner" demo_env fresh_process) = Raise e))).
Proof.
  split; [reflexivity|].
  apply (check_error_raises_iff_hard demo_env fresh_process (-5) "partner").
  reflexivity.
Defined.

(** C2, as stated, fails: with code 0 an unknown role goes unnoticed. *)
Lemma check_error_unknown_role_not_always_rejected :
  ~ (forall (env : Env) (p : Proc) (code : Z) (context : string),
       in_contexts context = false ->
       exists msg, fst (check_error code context env p) = Raise (TypeError msg)).
Proof.
  intros H.
  destruct (H demo_env fresh_process 0 "operator" eq_refl) as [msg Hmsg].
  discriminate Hmsg.
Qed.

(** C2, amended: for every role string outside client, server and partner,
    [error_text] fails with the [TypeError] for every code, and [check_error]
    fails with it for every code other than 0 and 1; in both cases nothing
    has been logged, loaded or called. For codes 0 and 1 [check_error]
    returns. *)
Theorem unknown_role_is_type_error
    (env : Env) (p : Proc) (code : Z) (context : string) :
  in_contexts context = false ->
  error_text code context env p
    = (Raise (TypeError (unknown_context_message context)), p)
  /\ (code <> 0 /\ code <> 1 ->
      check_error code context env p
        = (Raise (TypeError (unknown_context_message context)), p))
  /\ (code = 0 \/ code = 1 -> check_error code context env p = (Ok tt, p)).
Proof.
  intros Hout. split; [|split].
  - now apply error_text_unknown.
  - intros H. rewrite (check_error_hard env p code context H).
    now rewrite (error_text_unknown env p code context Hout).
  - apply check_error_skip.
Qed.

Lemma unknown_role_is_type_error_witness :
  in_contexts "operator" = false
  /\ (error_text 7 "operator" demo_env fresh_process
        = (Raise (TypeError (unknown_context_message "operator")), fresh_process)
      /\ (7 <> 0 /\ 7 <> 1 ->
          check_error 7 "operator" demo_env fresh_process
            = (Raise (TypeError (unknown_context_message "operator")), fresh_process))
      /\ (7 = 0 \/ 7 = 1 ->
          check_error 7 "operator" demo_env fresh_process = (Ok tt, fresh_process))).
Proof.
  split; [reflexivity|].
  apply (unknown_role_is_type_error demo_env fresh_process 7 "operator").
  reflexivity.
Defined.

(** C3: when the wrapped function returns code 0 or 1, the wrapper returns
    that very code and the process state the function left, whatever the
    context: 1 is not turned into 0, into an exception or into anything
    else. *)
Theorem decorator_passes_soft_code_through
    {Args : Type} (context : string) (func : Args -> M Z) (args : Args)
    (env : Env) (p p' : Proc) (code : Z) :
  func args env p = (Ok code, p') ->
  code = 0 \/ code = 1 ->
  error_hadler_decorator context func args env p = (Ok code, p').
Proof.
  intros Hf Hc. unfold error_hadler_decorator, bind at 1. rewrite Hf.
  unfold bind. now rewrite (check_error_skip env p' code context Hc).
Qed.

Lemma decorator_passes_soft_code_through_witness :
  demo_as_b_send 3 demo_env demo_loaded
    = (Ok 1, add_log (LogDebug "as_b_send") demo_loaded)
  /\ (1 = 0 \/ 1 = 1)
  /\ error_hadler_decorator "partner" demo_as_b_send 3 demo_env demo_loaded
     = (Ok 1, add_log (LogDebug "as_b_send") demo_loaded).
Proof.
  split; [reflexivity|]. split; [right; reflexivity|].
  apply (decorator_passes_soft_code_through "partner" demo_as_b_send 3
           demo_env demo_loaded (add_log (LogDebug "as_b_send") demo_loaded) 1).
  - reflexivity.
  - right; reflexivity.
Defined.

(** C4, as stated, fails: for the hard-error code 2^64, on a platform with a
    64-bit [long], no explanation is returned: [ctypes] refuses the code and
    [error_text] raises, with the library loaded and a valid role. *)
Lemma error_text_out_of_range_code_not_explained :
  ~ (forall (env : Env) (p : Proc) (code : Z) (context : string) (library : CDLL),
       in_contexts context = true ->
       code <> 0 /\ code <> 1 ->
       fst (load_library None env p) = Ok library ->
       exists ep,
         fst (error_text code context env p)
         = Ok (value 1024 (entry ep library code (c_char_array 1024) 1024))).
Proof.
  intros H.
  destruct (H demo_env demo_loaded (2 ^ 64) "client" demo_cdll eq_refl) as [ep Hep].
  - split; discriminate.
  - reflexivity.
  - vm_compute in Hep. discriminate Hep.
Qed.

(** C4, amended: for a role among client, server and partner and a code in
    the range [ctypes] converts (-2^(w-1) <= code < 2^w for a [long] of w
    bits), once the driver handle is obtained [error_text] calls that role's
    entry point of the driver once ([Cli_ErrorText] for client,
    [Srv_ErrorText] for server, [Par_ErrorText] for partner) with the raw
    code, a zeroed buffer of exactly 1024 bytes and the length 1024, and
    returns the buffer's bytes up to the first NUL. For a code outside that
    range [ctypes] raises [ArgumentError] and no entry point is called. *)
Theorem error_text_calls_role_entry
    (env : Env) (p : Proc) (code : Z) (context : string) (library : CDLL) :
  in_contexts context = true ->
  fst (load_library None env p) = Ok library ->
  (- 2 ^ (long_bits env - 1) <= code < 2 ^ long_bits env ->
     (context = "client" ->
        fst (error_text code context env p)
        = Ok (value 1024 (Cli_ErrorText library code (c_char_array 1024) 1024))
        /\ events (snd (error_text code context env p))
           = (events (snd (load_library None env p))
              ++ [EvErrorText EP_Cli_ErrorText code 1024])%list)
     /\ (context = "server" ->
          fst (error_text code context env p)
          = Ok (value 1024 (Srv_ErrorText library code (c_char_array 1024) 1024))
          /\ events (snd (error_text code context env p))
             = (events (snd (load_library None env p))
                ++ [EvErrorText EP_Srv_ErrorText code 1024])%list)
     /\ (context = "partner" ->
          fst (error_text code context env p)
          = Ok (value 1024 (Par_ErrorText library code (c_char_array 1024) 1024))
          /\ events (snd (error_text code context env p))
             = (events (snd (load_library None env p))
                ++ [EvErrorText EP_Par_ErrorText code 1024])%list)
     /\ (context = "client" \/ context = "server" \/ context = "partner")
     /\ List.length (c_char_array 1024) = 1024%nat)
  /\ (~ (- 2 ^ (long_bits env - 1) <= code < 2 ^ long_bits env) ->
      fst (error_text code context env p) = Raise (ArgumentError 1)
      /\ events (snd (error_text code context env p))
         = events (snd (load_library None env p))).
Proof.
  intros Hin Hl.
  assert (Hknown : forall ep, role_entry context = Some ep ->
            error_text code context env p
            = if int_converts (long_bits env) code then
                (Ok (decoded_message library ep code),
                 add_event (EvErrorText ep code 1024)
                   (add_log (LogDebug ("error text for " ++ HexString.of_Z code))
                      (snd (load_library None env p))))
              else
                (Raise (ArgumentError 1),
                 add_log (LogDebug ("error text for " ++ HexString.of_Z code))
                   (snd (load_library None env p)))).
  { intros ep Hep. rewrite (error_text_known env p code context ep Hep).
    rewrite load_library_add_log.
    destruct (load_library None env p) as [[library'|e] p']; cbn in Hl; [|discriminate].
    now injection Hl as ->. }
  split.
  - intros Hr. apply int_converts_range in Hr.
    assert (Hcase : forall name ep, role_entry name = Some ep -> context = name ->
              fst (error_text code context env p) = Ok (decoded_message library ep code)
              /\ events (snd (error_text code context env p))
                 = (events (snd (load_library None env p))
                    ++ [EvErrorText ep code 1024])%list).
    { intros name ep Hep ->. rewrite (Hknown ep Hep), Hr. split; reflexivity. }
    split; [apply (Hcase "client" EP_Cli_ErrorText eq_refl)|].
    split; [apply (Hcase "server" EP_Srv_ErrorText eq_refl)|].
    split; [apply (Hcase "partner" EP_Par_ErrorText eq_refl)|].
    split.
    + unfold in_contexts, contexts in Hin. cbn in Hin.
      destruct (String.eqb_spec context "client") as [E|_]; [now left|].
      destruct (String.eqb_spec context "server") as [E|_]; [now right; left|].
      destruct (String.eqb_spec context "partner") as [E|_]; [now right; right|].
      discriminate Hin.
    + unfold c_char_array. now rewrite repeat_length.
  - intros Hr.
    destruct (proj1 (in_contexts_role_entry context) Hin) as [ep Hep].
    rewrite (Hknown ep Hep).
    destruct (int_converts (long_bits env) code) eqn:E.
    + contradiction Hr. now apply int_converts_range.
    + split; reflexivity.
Qed.

Lemma error_text_calls_role_entry_witness :
  in_contexts "server" = true
  /\ fst (load_library None demo_env fresh_process) = Ok demo_cdll
  /\ - 2 ^ (long_bits demo_env - 1) <= 9 < 2 ^ long_bits demo_env
  /\ "server" = "server"
  /\ fst (error_text 9 "server" demo_env fresh_process)
     = Ok (value 1024 (Srv_ErrorText demo_cdll 9 (c_char_array 1024) 1024))
  /\ events (snd (error_text 9 "server" demo_env fresh_process))
     = (events (snd (load_library None demo_env fresh_process))
        ++ [EvErrorText EP_Srv_ErrorText 9 1024])%list.
Proof.
  assert (Hr : - 2 ^ (long_bits demo_env - 1) <= 9 < 2 ^ long_bits demo_env)
    by (cbn; lia).
  split; [reflexivity|]. split; [reflexivity|]. split; [exact Hr|].
  split; [reflexivity|].
  destruct (error_text_calls_role_entry demo_env fresh_process 9 "server" demo_cdll
              eq_refl eq_refl) as [Hin _].
  destruct (Hin Hr) as [_ [Hs _]].
  exact (Hs eq_refl).
Defined.

Example demo_error_text_refused :
  error_text (2 ^ 64) "client" demo_env demo_loaded
  = (Raise (ArgumentError 1),
     add_log (LogDebug "error text for 0x10000000000000000") demo_loaded).
Proof. vm_compute. reflexivity. Qed.

(** C10: for codes 0 and 1 [check_error] returns without raising for every
    context string, known or not, and leaves the process state untouched: no
    role is validated, nothing is logged, the library is not loaded and no
    entry point of the driver is called. *)
Theorem check_error_soft_codes_ignore_context
    (env : Env) (p : Proc) (context : string) :
  check_error 0 context env p = (Ok tt, p)
  /\ check_error 1 context env p = (Ok tt, p)
  /\ filter is_driver_call (events (snd (check_error 0 context env p)))
     = filter is_driver_call (events p)
  /\ filter is_driver_call (events (snd (check_error 1 context env p)))
     = filter is_driver_call (events p).
Proof.
  assert (H0 : check_error 0 context env p = (Ok tt, p))
    by (apply check_error_skip; now left).
  assert (H1 : check_error 1 context env p = (Ok tt, p))
    by (apply check_error_skip; now right).
  rewrite H0, H1. repeat split.
Qed.

(** ** The resolution order *)

Lemma try_in_order_first (before after : list (option string * list Event))
    (c : option string * list Event) :
  Forall unresolved before ->
  truthy (fst c) = true ->
  try_in_order (before ++ c :: after) = (fst c, (List.concat (map snd before) ++ snd c)%list).
Proof.
  intros Hb Hc. induction Hb as [|b before Hb0 Hb IH]; cbn [app map List.concat try_in_order].
  - destruct c as [c0 probes]; cbn in *. now rewrite Hc.
  - destruct b as [b0 probes]; unfold unresolved in Hb0; cbn in Hb0 |- *.
    rewrite Hb0.
    destruct (before ++ c :: after)%list eqn:E.
    + now destruct before.
    + rewrite IH. now rewrite app_assoc.
Qed.

Lemma try_in_order_none (cs : list (option string * list Event)) :
  Forall unresolved cs ->
  truthy (fst (try_in_order cs)) = false
  /\ snd (try_in_order cs) = List.concat (map snd cs).
Proof.
  intros H. induction H as [|c cs Hc H IH]; [now cbn|].
  destruct c as [c0 probes]; unfold unresolved in Hc; cbn in Hc.
  cbn [try_in_order map List.concat]. rewrite Hc.
  destruct cs as [|c' cs'].
  - cbn. split; [exact Hc|now rewrite app_nil_r].
  - destruct (try_in_order (c' :: cs')) as [r more]. cbn in IH |- *.
    destruct IH as [IH1 IH2]. split; [exact IH1|now rewrite IH2].
Qed.

Lemma try_in_order_probes (cs : list (option string * list Event)) :
  Forall (fun c => filter is_open (snd c) = []) cs ->
  filter is_open (snd (try_in_order cs)) = [].
Proof.
  intros H. induction H as [|c cs Hc H IH]; [reflexivity|].
  destruct c as [c0 probes]; cbn in Hc. cbn [try_in_order].
  destruct (truthy c0); [exact Hc|].
  destruct cs as [|c' cs']; [exact Hc|].
  destruct (try_in_order (c' :: cs')) as [r more]. cbn in IH |- *.
  now rewrite filter_app, Hc, IH.
Qed.

Lemma candidates_probes (env : Env) (cached arg : option string) :
  Forall (fun c => filter is_open (snd c) = []) (candidates env cached arg).
Proof.
  unfold candidates, package_candidate, local_candidate.
  repeat constructor.
  destruct (os_path_exists env (package_path env));
    [destruct (os_path_isfile env (package_path env))|]; reflexivity.
Qed.

(** What the first load leaves behind, event by event. *)
Lemma load_library_first (env : Env) (p : Proc) (arg : option string) :
  loaded p = None ->
  load_library arg env p =
  (match fst (fst (first_load env (cached_location p) arg)) with
   | Ok self => match cdll self with
                | Some h => Ok h
                | None => Raise (AttributeError "cdll")
                end
   | Raise e => Raise e
   end,
   set_instance (snd (fst (first_load env (cached_location p) arg)))
                (add_events (snd (first_load env (cached_location p) arg)) p)).
Proof.
  intros H. unfold load_library, bind.
  rewrite (Snap7Library_call_first env p arg H).
  destruct (fst (fst (first_load _ _ _))) as [self|e]; [|reflexivity].
  now destruct (cdll self).
Qed.

(** C5: on a first load (the singleton holds no handle yet) the location is
    resolved by trying, in this order, the explicit argument, the cached
    location, the binary bundled with the package for the current platform,
    the system-wide search and the file named after the library in the
    working directory. The first candidate that resolves is cached and is
    the one [LoadLibrary] is given, and only the candidates up to it have
    been probed; when none resolves, loading raises the [RuntimeError] of a
    missing library, no handle is held and nothing has been opened. The
    bundled binary is [lib/libsnap7.dylib], [lib/snap7.dll] or
    [lib/libsnap7.so] next to the module, by platform, and has to be a
    regular file; the file of the working directory is [snap7.dll] and has
    to exist. *)
Theorem first_load_resolution_order (env : Env) (p : Proc) (arg : option string) :
  loaded p = None ->
  map fst (candidates env (cached_location p) arg)
    = [ arg; cached_location p; fst (package_candidate env);
        find_library env "snap7"; fst (local_candidate env "snap7") ]
  /\ (forall before c after,
        candidates env (cached_location p) arg = (before ++ c :: after)%list ->
        Forall unresolved before ->
        truthy (fst c) = true ->
        exists path,
          fst c = Some path
          /\ cached_location (snd (load_library arg env p)) = Some path
          /\ fst (load_library arg env p)
             = match LoadLibrary env path with
               | Some h => Ok h
               | None => Raise (OSError path)
               end
          /\ events (snd (load_library arg env p))
             = (events p ++ List.concat (map snd before) ++ snd c
                ++ [EvLoadLibrary path
                      (match LoadLibrary env path with Some _ => true | None => false end)])%list)
  /\ (Forall unresolved (candidates env (cached_location p) arg) ->
        fst (load_library arg env p) = Raise (RuntimeError (ArgStr not_found_message))
        /\ loaded (snd (load_library arg env p)) = None
        /\ events (snd (load_library arg env p))
           = (events p ++ List.concat (map snd (candidates env (cached_location p) arg)))%list)
  /\ fst (find_in_package env p)
     = Ok (if os_path_exists env (bundled_path env) && os_path_isfile env (bundled_path env)
           then Some (bundled_path env) else None)
  /\ fst (package_candidate env)
     = (if os_path_exists env (bundled_path env) && os_path_isfile env (bundled_path env)
        then Some (bundled_path env) else None)
  /\ fst (find_locally "snap7" env p)
     = Ok (if os_path_exists env (path_join env (cwd env) "snap7.dll")
           then Some (path_join env (cwd env) "snap7.dll") else None)
  /\ fst (local_candidate env "snap7")
     = (if os_path_exists env (path_join env (cwd env) "snap7.dll")
        then Some (path_join env (cwd env) "snap7.dll") else None).
Proof.
  intros Hl. split; [reflexivity|].
  assert (Hnames :
    fst (find_in_package env p)
    = Ok (if os_path_exists env (bundled_path env) && os_path_isfile env (bundled_path env)
          then Some (bundled_path env) else None)
    /\ fst (package_candidate env)
       = (if os_path_exists env (bundled_path env) && os_path_isfile env (bundled_path env)
          then Some (bundled_path env) else None)
    /\ fst (find_locally "snap7" env p)
       = Ok (if os_path_exists env (path_join env (cwd env) "snap7.dll")
             then Some (path_join env (cwd env) "snap7.dll") else None)
    /\ fst (local_candidate env "snap7")
       = (if os_path_exists env (path_join env (cwd env) "snap7.dll")
          then Some (path_join env (cwd env) "snap7.dll") else None)).
  { change (bundled_path env) with (package_path env).
    change (path_join env (cwd env) "snap7.dll") with (local_path env "snap7").
    unfold package_candidate, local_candidate. run_monad.
    change (path_join env (path_join env (package_dir env) "lib")
              (package_lib (sys_platform env))) with (package_path env).
    change (path_join env (cwd env) "snap7.dll") with (local_path env "snap7").
    destruct (os_path_exists env (package_path env)); cbn;
      [destruct (os_path_isfile env (package_path env)); cbn|];
      destruct (os_path_exists env (local_path env "snap7")); cbn;
      repeat split. }
  rewrite (load_library_first env p arg Hl). unfold first_load.
  split; [|split; [|exact Hnames]].
  - intros before c after Hcs Hb Hc.
    rewrite Hcs, (try_in_order_first before after c Hb Hc).
    destruct (truthy_some (fst c) Hc) as [path [Hp _]].
    exists path. split; [exact Hp|].
    rewrite Hp in Hc |- *. rewrite Hc.
    destruct (LoadLibrary env path) as [h|]; cbn;
      repeat split; now rewrite <- !app_assoc.
  - intros Hn.
    destruct (try_in_order_none _ Hn) as [Ht Hs].
    destruct (try_in_order (candidates env (cached_location p) arg)) as [loc probes].
    cbn [fst snd] in Ht, Hs. subst probes.
    destruct loc as [path|]; [rewrite Ht|]; cbn; repeat split.
Qed.

Lemma first_load_resolution_order_witness :
  loaded fresh_process = None
  /\ (map fst (candidates demo_env (cached_location fresh_process) None)
        = [ None; cached_location fresh_process; fst (package_candidate demo_env);
            find_library demo_env "snap7"; fst (local_candidate demo_env "snap7") ]
      /\ (forall before c after,
            candidates demo_env (cached_location fresh_process) None
              = (before ++ c :: after)%list ->
            Forall unresolved before ->
            truthy (fst c) = true ->
            exists path,
              fst c = Some path
              /\ cached_location (snd (load_library None demo_env fresh_process)) = Some path
              /\ fst (load_library None demo_env fresh_process)
                 = match LoadLibrary demo_env path with
                   | Some h => Ok h
                   | None => Raise (OSError path)
                   end
              /\ events (snd (load_library None demo_env fresh_process))
                 = (events fresh_process ++ List.concat (map snd before) ++ snd c
                    ++ [EvLoadLibrary path
                          (match LoadLibrary demo_env path with
                           | Some _ => true
                           | None => false
                           end)])%list)
      /\ (Forall unresolved (candidates demo_env (cached_location fresh_process) None) ->
            fst (load_library None demo_env fresh_process)
              = Raise (RuntimeError (ArgStr not_found_message))
            /\ loaded (snd (load_library None demo_env fresh_process)) = None
            /\ events (snd (load_library None demo_env fresh_process))
               = (events fresh_process
                  ++ List.concat (map snd (candidates demo_env
                                            (cached_location fresh_process) None)))%list)
      /\ fst (find_in_package demo_env fresh_process)
         = Ok (if os_path_exists demo_env (bundled_path demo_env)
                  && os_path_isfile demo_env (bundled_path demo_env)
               then Some (bundled_path demo_env) else None)
      /\ fst (package_candidate demo_env)
         = (if os_path_exists demo_env (bundled_path demo_env)
               && os_path_isfile demo_env (bundled_path demo_env)
            then Some (bundled_path demo_env) else None)
      /\ fst (find_locally "snap7" demo_env fresh_process)
         = Ok (if os_path_exists demo_env (path_join demo_env (cwd demo_env) "snap7.dll")
               then Some (path_join demo_env (cwd demo_env) "snap7.dll") else None)
      /\ fst (local_candidate demo_env "snap7")
         = (if os_path_exists demo_env (path_join demo_env (cwd demo_env) "snap7.dll")
            then Some (path_join demo_env (cwd demo_env) "snap7.dll") else None)).
Proof.
  split; [reflexivity|].
  apply (first_load_resolution_order demo_env fresh_process None).
  reflexivity.
Defined.

(** The explicit argument wins over everything else, and the system-wide
    search is reached only after the package has been probed. *)
Example demo_explicit_path :
  events (snd (load_library (Some "/opt/other/libsnap7.so") demo_env fresh_process))
  = [EvLoadLibrary "/opt/other/libsnap7.so" true].
Proof. reflexivity. Qed.

Example demo_bare_probes :
  events (snd (load_library None bare_env fresh_process))
  = [ EvExists "/site-packages/snap7/lib/libsnap7.so";
      EvFindLibrary "snap7";
      EvExists "/home/user/snap7.dll" ].
Proof. reflexivity. Qed.

(** ** One handle per process *)

Lemma undisturbed_refl (p : Proc) : undisturbed p p.
Proof. split; auto. Qed.

Lemma undisturbed_trans (p q r : Proc) :
  undisturbed p q -> undisturbed q r -> undisturbed p r.
Proof.
  intros [Hi1 Hh1] [Hi2 Hh2]. split; [auto|].
  intros h H. destruct (Hh1 h H) as [Hq Hc].
  destruct (Hh2 h Hq) as [Hr Hc']. split; [exact Hr|congruence].
Qed.

Lemma undisturbed_add_log (p : Proc) (r : LogRecord) : undisturbed p (add_log r p).
Proof. split; auto. Qed.

Lemma undisturbed_add_event (p : Proc) (e : Event) :
  is_open e = false -> undisturbed p (add_event e p).
Proof.
  intros He. split; [|auto].
  unfold opened_once, opens, add_event; cbn.
  rewrite filter_app; cbn. rewrite He, app_nil_r. auto.
Qed.

Lemma first_load_opened (env : Env) (cached arg : option string) :
  List.length (filter is_open (snd (first_load env cached arg)))
  = match cdll (snd (fst (first_load env cached arg))) with
    | Some _ => 1%nat
    | None => 0%nat
    end.
Proof.
  unfold first_load.
  pose proof (try_in_order_probes _ (candidates_probes env cached arg)) as Hp.
  destruct (try_in_order (candidates env cached arg)) as [loc probes]; cbn in Hp.
  destruct loc as [path|]; [|cbn; now rewrite Hp].
  destruct (truthy (Some path)); [|cbn; now rewrite Hp].
  destruct (LoadLibrary env path); cbn; rewrite filter_app, Hp; reflexivity.
Qed.

Lemma undisturbed_Snap7Library_call (env : Env) (p : Proc) (arg : option string) :
  undisturbed p (snd (Snap7Library_call arg env p)).
Proof.
  destruct (loaded p) as [h|] eqn:Hl.
  - rewrite (Snap7Library_call_loaded env p arg h Hl). apply undisturbed_refl.
  - rewrite (Snap7Library_call_first env p arg Hl). cbn [snd].
    split; [|intros h H; congruence].
    unfold opened_once, opens. rewrite Hl. intros Hp.
    cbn. rewrite filter_app, length_app, first_load_opened.
    unfold loaded; cbn. now rewrite Hp.
Qed.

Lemma snd_load_library (env : Env) (p : Proc) (arg : option string) :
  snd (load_library arg env p) = snd (Snap7Library_call arg env p).
Proof.
  unfold load_library, bind.
  destruct (Snap7Library_call arg env p) as [[self|e] p']; [|reflexivity].
  now destruct (cdll self).
Qed.

Lemma undisturbed_load_library (env : Env) (p : Proc) (arg : option string) :
  undisturbed p (snd (load_library arg env p)).
Proof. rewrite snd_load_library. apply undisturbed_Snap7Library_call. Qed.

Lemma undisturbed_error_text (env : Env) (p : Proc) (error : Z) (context : string) :
  undisturbed p (snd (error_text error context env p)).
Proof.
  destruct (in_contexts context) eqn:Hin.
  - destruct (proj1 (in_contexts_role_entry context) Hin) as [ep Hep].
    rewrite (error_text_known env p error context ep Hep).
    set (q := add_log _ p).
    pose proof (undisturbed_load_library env q None) as Hq.
    destruct (load_library None env q) as [[library|e] p']; cbn [snd] in *.
    + eapply undisturbed_trans; [apply undisturbed_add_log|].
      eapply undisturbed_trans; [exact Hq|].
      destruct (int_converts (long_bits env) error); cbn [snd];
        [now apply undisturbed_add_event|apply undisturbed_refl].
    + eapply undisturbed_trans; [apply undisturbed_add_log|exact Hq].
  - rewrite (error_text_unknown env p error context Hin). apply undisturbed_refl.
Qed.

Lemma undisturbed_check_error (env : Env) (p : Proc) (code : Z) (context : string) :
  undisturbed p (snd (check_error code context env p)).
Proof.
  destruct (Z.eq_dec code 0) as [H0|H0].
  { rewrite check_error_skip by now left. apply undisturbed_refl. }
  destruct (Z.eq_dec code 1) as [H1|H1].
  { rewrite check_error_skip by now right. apply undisturbed_refl. }
  rewrite (check_error_hard env p code context (conj H0 H1)).
  pose proof (undisturbed_error_text env p code context) as He.
  destruct (error_text code context env p) as [[error|e] p']; cbn [snd] in *.
  - eapply undisturbed_trans; [exact He|apply undisturbed_add_log].
  - exact He.
Qed.

Lemma undisturbed_run_call (c : Call) (env : Env) (p : Proc) :
  undisturbed p (run_call c env p).
Proof.
  destruct c; cbn.
  - apply undisturbed_Snap7Library_call.
  - apply undisturbed_load_library.
  - apply undisturbed_error_text.
  - apply undisturbed_check_error.
Qed.

Lemma undisturbed_run_calls (history : list (Env * Call)) (p : Proc) :
  undisturbed p (run_calls history p).
Proof.
  revert p. induction history as [|[env c] rest IH]; intros p; cbn.
  - apply undisturbed_refl.
  - eapply undisturbed_trans; [apply undisturbed_run_call|apply IH].
Qed.

Lemma opened_once_fresh : opened_once fresh_process.
Proof. reflexivity. Qed.

(** C6: in any process, whatever calls have been made so far, the native
    library has been opened at most once. Once the singleton holds a handle,
    every further [load_library] and [Snap7Library] call, with any argument
    (a different explicit path included) and under any state of the
    operating system, returns that same handle and changes nothing; and
    whatever else follows, the handle, the cached location and the count of
    openings stay as they are. *)
Theorem library_opened_at_most_once (history : list (Env * Call)) :
  (opens (run_calls history fresh_process) <= 1)%nat
  /\ forall h, loaded (run_calls history fresh_process) = Some h ->
       opens (run_calls history fresh_process) = 1%nat
       /\ (forall env arg,
             load_library arg env (run_calls history fresh_process)
               = (Ok h, run_calls history fresh_process)
             /\ exists self,
                  Snap7Library_call arg env (run_calls history fresh_process)
                    = (Ok self, run_calls history fresh_process)
                  /\ cdll self = Some h
                  /\ lib_location self = cached_location (run_calls history fresh_process))
       /\ (forall more,
             loaded (run_calls more (run_calls history fresh_process)) = Some h
             /\ cached_location (run_calls more (run_calls history fresh_process))
                = cached_location (run_calls history fresh_process)
             /\ opens (run_calls more (run_calls history fresh_process)) = 1%nat).
Proof.
  set (p := run_calls history fresh_process).
  assert (Hinv : opened_once p).
  { apply (undisturbed_run_calls history fresh_process), opened_once_fresh. }
  split.
  { unfold opened_once in Hinv. rewrite Hinv. destruct (loaded p); lia. }
  intros h Hl. split; [|split].
  - unfold opened_once in Hinv. now rewrite Hl in Hinv.
  - intros env arg. split; [now apply load_library_loaded|].
    exists (current_self p). split; [now apply (Snap7Library_call_loaded env p arg h)|].
    split; [now rewrite loaded_current_self|apply cached_current_self].
  - intros more.
    destruct (undisturbed_run_calls more p) as [Hi Hh].
    destruct (Hh h Hl) as [Hl' Hc]. repeat split; try assumption.
    specialize (Hi Hinv). unfold opened_once in Hi. now rewrite Hl' in Hi.
Qed.

Lemma library_opened_at_most_once_witness :
  loaded (run_calls demo_history fresh_process) = Some demo_cdll
  /\ (opens (run_calls demo_history fresh_process) <= 1)%nat
  /\ opens (run_calls demo_history fresh_process) = 1%nat
  /\ (forall env arg,
        load_library arg env (run_calls demo_history fresh_process)
          = (Ok demo_cdll, run_calls demo_history fresh_process)
        /\ exists self,
             Snap7Library_call arg env (run_calls demo_history fresh_process)
               = (Ok self, run_calls demo_history fresh_process)
             /\ cdll self = Some demo_cdll
             /\ lib_location self = cached_location (run_calls demo_history fresh_process))
  /\ (forall more,
        loaded (run_calls more (run_calls demo_history fresh_process)) = Some demo_cdll
        /\ cached_location (run_calls more (run_calls demo_history fresh_process))
           = cached_location (run_calls demo_history fresh_process)
        /\ opens (run_calls more (run_calls demo_history fresh_process)) = 1%nat).
Proof.
  split; [reflexivity|].
  destruct (library_opened_at_most_once demo_history) as [Hle Hh].
  split; [exact Hle|].
  exact (Hh demo_cdll eq_refl).
Defined.

Example demo_second_path_ignored :
  let p := run_calls [ (demo_env, CallLoadLibrary None) ] fresh_process in
  load_library (Some "/opt/other/libsnap7.so") demo_env p = (Ok demo_cdll, p)
  /\ cached_location p = Some "libsnap7.so".
Proof. split; reflexivity. Qed.

(** * The Partner endpoint *)

Import Partner.

Lemma create_live (answer : Z) (w w1 : World) (ep : Endpoint) :
  create answer w = (Done ep, w1) ->
  handle ep = Some answer /\ send ep = Idle /\ recv ep = Idle
  /\ answer <> 0 /\ w1 = reach Par_Create w.
Proof.
  unfold create. destruct (Z.eqb_spec answer 0) as [E|E]; [discriminate|].
  intros H. injection H as <- <-. repeat split. exact E.
Qed.

Lemma let_go_dead (l : Letting) (ep : Endpoint) (w : World) :
  handle ep = None -> let_go l ep w = (Done tt, ep, w).
Proof. intros H. destruct l; unfold let_go, release, destroy; now rewrite H. Qed.

Lemma let_go_live (l : Letting) (ep : Endpoint) (w : World) (h : Z) :
  handle ep = Some h ->
  let_go l ep w =
  (Done tt, {| handle := None; send := send ep; recv := recv ep |}, reach (Par_Destroy h) w).
Proof. intros H. destruct l; unfold let_go, release, destroy; now rewrite H. Qed.

Lemma let_go_all_dead (ls : list Letting) (ep : Endpoint) (w : World) :
  handle ep = None -> let_go_all ls ep w = (true, ep, w).
Proof.
  intros H. induction ls as [|l rest IH]; [reflexivity|].
  cbn [let_go_all]. now rewrite (let_go_dead l ep w H).
Qed.

Lemma frees_reach_destroy (h : Z) (w : World) :
  frees h (reach (Par_Destroy h) w) = S (frees h w).
Proof.
  unfold frees, reach; cbn. rewrite filter_app, length_app; cbn.
  rewrite Z.eqb_refl; cbn. lia.
Qed.

(** C7: for an endpoint that [create] returned, [destroy] succeeds and a
    second [destroy] (or the automatic release) on the destroyed endpoint
    succeeds too, changes neither the endpoint nor the native side and thus
    frees nothing; and over any sequence of [destroy] calls and automatic
    releases on the endpoint none fails and its native object is freed at
    most once, exactly once as soon as the sequence is not empty. *)
Theorem destroy_idempotent (answer : Z) (w w1 : World) (ep : Endpoint) :
  create answer w = (Done ep, w1) ->
  fst (fst (destroy ep w1)) = Done tt
  /\ destroy (snd (fst (destroy ep w1))) (snd (destroy ep w1))
     = (Done tt, snd (fst (destroy ep w1)), snd (destroy ep w1))
  /\ release (snd (fst (destroy ep w1))) (snd (destroy ep w1))
     = (Done tt, snd (fst (destroy ep w1)), snd (destroy ep w1))
  /\ forall ls : list Letting,
       fst (fst (let_go_all ls ep w1)) = true
       /\ (frees answer (snd (let_go_all ls ep w1)) <= frees answer w1 + 1)%nat
       /\ (ls <> [] ->
           handle (snd (fst (let_go_all ls ep w1))) = None
           /\ frees answer (snd (let_go_all ls ep w1)) = (frees answer w1 + 1)%nat).
Proof.
  intros Hc. destruct (create_live answer w w1 ep Hc) as [Hh _].
  pose proof (let_go_live Destroy ep w1 answer Hh) as Hd. cbn [let_go] in Hd.
  rewrite Hd. cbn [fst snd].
  split; [reflexivity|]. split; [reflexivity|]. split; [reflexivity|].
  intros [|l rest].
  - cbn. split; [reflexivity|]. split; [lia|]. intros H. now contradiction H.
  - cbn [let_go_all]. rewrite (let_go_live l ep w1 answer Hh).
    rewrite let_go_all_dead by reflexivity. cbn [fst snd].
    rewrite frees_reach_destroy.
    split; [reflexivity|]. split; [lia|]. intros _. split; [reflexivity|lia].
Qed.

Lemma destroy_idempotent_witness :
  create 7 demo_world = (Done demo_endpoint, reach Par_Create demo_world)
  /\ fst (fst (destroy demo_endpoint (reach Par_Create demo_world))) = Done tt
  /\ destroy (snd (fst (destroy demo_endpoint (reach Par_Create demo_world))))
             (snd (destroy demo_endpoint (reach Par_Create demo_world)))
     = (Done tt, snd (fst (destroy demo_endpoint (reach Par_Create demo_world))),
        snd (destroy demo_endpoint (reach Par_Create demo_world)))
  /\ release (snd (fst (destroy demo_endpoint (reach Par_Create demo_world))))
             (snd (destroy demo_endpoint (reach Par_Create demo_world)))
     = (Done tt, snd (fst (destroy demo_endpoint (reach Par_Create demo_world))),
        snd (destroy demo_endpoint (reach Par_Create demo_world)))
  /\ forall ls : list Letting,
       fst (fst (let_go_all ls demo_endpoint (reach Par_Create demo_world))) = true
       /\ (frees 7 (snd (let_go_all ls demo_endpoint (reach Par_Create demo_world)))
           <= frees 7 (reach Par_Create demo_world) + 1)%nat
       /\ (ls <> [] ->
           handle (snd (fst (let_go_all ls demo_endpoint (reach Par_Create demo_world))))
             = None
           /\ frees 7 (snd (let_go_all ls demo_endpoint (reach Par_Create demo_world)))
              = (frees 7 (reach Par_Create demo_world) + 1)%nat).
Proof.
  split; [reflexivity|].
  apply (destroy_idempotent 7 demo_world (reach Par_Create demo_world) demo_endpoint).
  reflexivity.
Defined.

Example demo_destroy_twice_then_release :
  trace (snd (let_go_all [Destroy; Destroy; Release] demo_endpoint (reach Par_Create demo_world)))
  = [Par_Create; Par_Destroy 7].
Proof. reflexivity. Qed.






Example demo_wait_after_completed :
  wait_as_b_send_completion demo_completed 3000 None demo_world
  = (Done 0, demo_completed, demo_world).
Proof. reflexivity. Qed.

(** C9: on a live Partner endpoint [get_param] of [MaxClients] fails with
    [InvalidParameter] and [set_param] of [RemotePort] fails with
    [InvalidParameter] for every value; in both cases the native side is as
    before: no request has reached the driver and no value has changed. More
    generally a read or a write fails in this way exactly for a key the
    registry of the partner role does not allow it for, and otherwise
    reaches the driver with one request. *)
Theorem inapplicable_keys_rejected (ep : Endpoint) (h : Z) (w : World) :
  handle ep = Some h ->
  get_param ep MaxClients w = (Fail InvalidParameter, w)
  /\ (forall value, set_param ep RemotePort value w = (Fail InvalidParameter, w))
  /\ (forall key,
        (get_param ep key w = (Fail InvalidParameter, w)
         <-> key = MaxClients)
        /\ (key <> MaxClients ->
            get_param ep key w = (Done (store w h key), reach (Par_GetParam h key) w)))
  /\ (forall key value,
        (set_param ep key value w = (Fail InvalidParameter, w)
         <-> key = MaxClients \/ key = RemotePort)
        /\ (key <> MaxClients -> key <> RemotePort ->
            trace (snd (set_param ep key value w))
            = (trace w ++ [Par_SetParam h key value])%list)).
Proof.
  intros Hh. unfold get_param, set_param. rewrite Hh.
  split; [reflexivity|]. split; [reflexivity|]. split.
  - intros key. destruct key; cbn;
      (split;
       [split; intros H; first [reflexivity | discriminate H]
       |intros H; first [reflexivity | exfalso; apply H; reflexivity]]).
  - intros key value. destruct key; cbn;
      (split;
       [split;
        [intros H; first [discriminate H | left; reflexivity | right; reflexivity]
        |intros [H|H]; first [reflexivity | discriminate H]]
       |intros H1 H2;
        first [reflexivity
              | exfalso; apply H1; reflexivity
              | exfalso; apply H2; reflexivity]]).
Qed.

Lemma inapplicable_keys_rejected_witness :
  handle demo_endpoint = Some 7
  /\ get_param demo_endpoint MaxClients demo_world = (Fail InvalidParameter, demo_world)
  /\ forall value,
       set_param demo_endpoint RemotePort value demo_world
       = (Fail InvalidParameter, demo_world).
Proof.
  split; [reflexivity|].
  destruct (inapplicable_keys_rejected demo_endpoint 7 demo_world eq_refl)
    as [Hg [Hs _]].
  split; [exact Hg|exact Hs].
Defined.

Example demo_param_round_trip :
  fst (get_param demo_endpoint PingTimeout
         (snd (set_param demo_endpoint PingTimeout 800 demo_world)))
  = Done 800.
Proof. reflexivity. Qed.

(** * The pattern [ipv4] *)

Lemma append_assoc (a b c : string) : ((a ++ b) ++ c = a ++ (b ++ c))%string.
Proof. induction a as [|x a IH]; cbn; [reflexivity|now rewrite IH]. Qed.

Lemma append_empty_r (a : string) : (a ++ "")%string = a.
Proof. induction a as [|x a IH]; cbn; [reflexivity|now rewrite IH]. Qed.

Lemma in_chars (lo hi c : ascii) : In c (Re.chars lo hi) <-> Re.in_range lo hi c = true.
Proof.
  unfold Re.chars, Re.in_range.
  rewrite in_map_iff, andb_true_iff, !Nat.leb_le. split.
  - intros [n [<- Hn]]. apply in_seq in Hn.
    assert (n < 256)%nat by (pose proof (nat_ascii_bounded hi); lia).
    rewrite nat_ascii_embedding by assumption. lia.
  - intros [H1 H2]. exists (nat_of_ascii c).
    split; [apply ascii_nat_embedding|]. apply in_seq. lia.
Qed.

Lemma in_product (a b : list string) (s : string) :
  In s (Re.product a b) <-> exists x y, In x a /\ In y b /\ s = (x ++ y)%string.
Proof.
  unfold Re.product. rewrite in_flat_map. split.
  - intros [x [Hx Hs]]. apply in_map_iff in Hs. destruct Hs as [y [<- Hy]]. eauto.
  - intros [x [y [Hx [Hy ->]]]]. exists x. split; [exact Hx|].
    apply in_map_iff. eauto.
Qed.

Lemma run_rep_succ (r : Re.regex) (n : nat) (s : string) (k : string -> bool) :
  Re.run (Re.Rep r (S n)) s k = Re.run r s (fun t => Re.run (Re.Rep r n) t k).
Proof. reflexivity. Qed.

(** Whatever the matcher accepts splits into a string of the expression and
    a rest the continuation accepts. *)
Lemma run_complete (r : Re.regex) :
  forall (s : string) (k : string -> bool),
    Re.run r s k = true ->
    exists s1 s2, s = (s1 ++ s2)%string /\ In s1 (Re.enum r) /\ k s2 = true.
Proof.
  induction r as [c|lo hi|r1 IH1 r2 IH2|r1 IH1 r2 IH2|r1 IH1 n]; intros s k H.
  - destruct s as [|x t]; cbn in H; [discriminate|].
    apply andb_true_iff in H. destruct H as [Hx Hk].
    apply Ascii.eqb_eq in Hx. subst x.
    exists (String c ""), t. cbn. auto.
  - destruct s as [|x t]; cbn in H; [discriminate|].
    apply andb_true_iff in H. destruct H as [Hx Hk].
    exists (String x ""), t. cbn. repeat split; [|exact Hk].
    apply in_map_iff. exists x. split; [reflexivity|]. now apply in_chars.
  - cbn in H. destruct (IH1 _ _ H) as [a [t [-> [Ha Ht]]]].
    destruct (IH2 _ _ Ht) as [b [u [-> [Hb Hu]]]].
    exists (a ++ b)%string, u. rewrite append_assoc. repeat split; [|exact Hu].
    cbn. apply in_product. eauto.
  - cbn in H. apply orb_true_iff in H. destruct H as [H|H].
    + destruct (IH1 _ _ H) as [a [t [-> [Ha Ht]]]].
      exists a, t. repeat split; [|exact Ht]. cbn. apply in_or_app. now left.
    + destruct (IH2 _ _ H) as [a [t [-> [Ha Ht]]]].
      exists a, t. repeat split; [|exact Ht]. cbn. apply in_or_app. now right.
  - revert s k H. induction n as [|n IHn]; intros s k H.
    + exists "", s. cbn in *. auto.
    + rewrite run_rep_succ in H.
      destruct (IH1 _ _ H) as [a [t [-> [Ha Ht]]]].
      destruct (IHn _ _ Ht) as [b [u [-> [Hb Hu]]]].
      exists (a ++ b)%string, u. rewrite append_assoc. repeat split; [|exact Hu].
      change (Re.enum (Re.Rep r1 (S n)))
        with (Re.product (Re.enum r1) (Re.enum (Re.Rep r1 n))).
      apply in_product. eauto.
Qed.

(** A string of the expression followed by a rest the continuation accepts
    is accepted, whichever alternatives have to be given up on the way. *)
Lemma run_sound (r : Re.regex) :
  forall (s1 s2 : string) (k : string -> bool),
    In s1 (Re.enum r) -> k s2 = true -> Re.run r (s1 ++ s2) k = true.
Proof.
  induction r as [c|lo hi|r1 IH1 r2 IH2|r1 IH1 r2 IH2|r1 IH1 n]; intros s1 s2 k Hin Hk.
  - cbn in Hin. destruct Hin as [<-|[]]. cbn. now rewrite Ascii.eqb_refl, Hk.
  - cbn in Hin. apply in_map_iff in Hin. destruct Hin as [x [<- Hx]].
    apply in_chars in Hx. cbn. now rewrite Hx, Hk.
  - cbn in Hin. apply in_product in Hin. destruct Hin as [a [b [Ha [Hb ->]]]].
    rewrite append_assoc. cbn. apply IH1; [exact Ha|]. now apply IH2.
  - cbn in Hin. apply in_app_or in Hin. cbn. apply orb_true_iff.
    destruct Hin as [Ha|Hb]; [left; now apply IH1|right; now apply IH2].
  - revert s1 s2 k Hin Hk. induction n as [|n IHn]; intros s1 s2 k Hin Hk.
    + cbn in Hin. destruct Hin as [<-|[]]. exact Hk.
    + change (Re.enum (Re.Rep r1 (S n)))
        with (Re.product (Re.enum r1) (Re.enum (Re.Rep r1 n))) in Hin.
      apply in_product in Hin. destruct Hin as [a [b [Ha [Hb ->]]]].
      rewrite append_assoc, run_rep_succ. apply IH1; [exact Ha|]. now apply IHn.
Qed.

Lemma dollar_cases (rest : string) :
  Re.dollar rest = true <-> rest = "" \/ rest = String "010" "".
Proof.
  unfold Re.dollar. rewrite orb_true_iff, !String.eqb_eq. tauto.
Qed.

Lemma re_fullmatch_enum (r : Re.regex) (s : string) :
  Re.re_fullmatch r s = true <-> In s (Re.enum r).
Proof.
  unfold Re.re_fullmatch. split.
  - intros H. destruct (run_complete r _ _ H) as [a [t [-> [Ha Ht]]]].
    apply andb_true_iff in Ht. destruct Ht as [_ Ht]. apply String.eqb_eq in Ht.
    subst t. now rewrite append_empty_r.
  - intros H. rewrite <- (append_empty_r s). now apply run_sound.
Qed.

Lemma re_match_enum (r : Re.regex) (s : string) :
  Re.re_match r s = true <->
  exists s1, In s1 (Re.enum r) /\ (s = s1 \/ s = (s1 ++ String "010" "")%string).
Proof.
  unfold Re.re_match. split.
  - intros H. destruct (run_complete r _ _ H) as [a [t [-> [Ha Ht]]]].
    exists a. split; [exact Ha|]. apply dollar_cases in Ht.
    destruct Ht as [->| ->]; [left; apply append_empty_r|now right].
  - intros [a [Ha [->| ->]]].
    + rewrite <- (append_empty_r a). now apply run_sound.
    + now apply run_sound.
Qed.

Lemma incl_by_computation (a b : list string) :
  forallb (fun x => existsb (String.eqb x) b) a = true -> incl a b.
Proof.
  intros H x Hx. rewrite forallb_forall in H. specialize (H x Hx).
  apply existsb_exists in H. destruct H as [y [Hy E]].
  apply String.eqb_eq in E. now subst y.
Qed.

(** The alternatives of [octet] stand for the numbers 0 to 255 in decimal,
    and for nothing else. *)
Lemma enum_octet (s : string) :
  In s (Re.enum octet) <-> exists n, (n <= 255)%nat /\ s = decimal n.
Proof.
  assert (H1 : incl (Re.enum octet) octets)
    by (apply incl_by_computation; vm_compute; reflexivity).
  assert (H2 : incl octets (Re.enum octet))
    by (apply incl_by_computation; vm_compute; reflexivity).
  assert (H3 : In s octets <-> exists n, (n <= 255)%nat /\ s = decimal n).
  { unfold octets. rewrite in_map_iff. split.
    - intros [n [<- Hn]]. apply in_seq in Hn. exists n. split; [lia|reflexivity].
    - intros [n [Hn ->]]. exists n. split; [reflexivity|]. apply in_seq. lia. }
  rewrite <- H3. split; [apply H1|apply H2].
Qed.

Lemma enum_ipv4 (s : string) :
  In s (Re.enum ipv4) <->
  exists a b c d,
    (a <= 255 /\ b <= 255 /\ c <= 255 /\ d <= 255)%nat /\ s = dotted_quad a b c d.
Proof.
  unfold ipv4, dotted_quad.
  change (Re.enum (Re.Cat (Re.Rep (Re.Cat octet (Re.Lit ".")) 3) octet))
    with (Re.product
            (Re.product (Re.product (Re.enum octet) [String "." ""])
               (Re.product (Re.product (Re.enum octet) [String "." ""])
                  (Re.product (Re.product (Re.enum octet) [String "." ""]) [""])))
            (Re.enum octet)).
  split.
  - intros H.
    apply in_product in H. destruct H as [x [sd [H [Hd ->]]]].
    apply in_product in H. destruct H as [xa [x' [Ha [H ->]]]].
    apply in_product in H. destruct H as [xb [x'' [Hb [H ->]]]].
    apply in_product in H. destruct H as [xc [e [Hc [He ->]]]].
    destruct He as [<-|[]].
    apply in_product in Ha. destruct Ha as [sa [p [Ha [[<-|[]] ->]]]].
    apply in_product in Hb. destruct Hb as [sb [p [Hb [[<-|[]] ->]]]].
    apply in_product in Hc. destruct Hc as [sc [p [Hc [[<-|[]] ->]]]].
    apply enum_octet in Ha, Hb, Hc, Hd.
    destruct Ha as [a [Ha ->]]. destruct Hb as [b [Hb ->]].
    destruct Hc as [c [Hc ->]]. destruct Hd as [d [Hd ->]].
    exists a, b, c, d. split; [auto|].
    now rewrite append_empty_r, !append_assoc.
  - intros [a [b [c [d [[Ha [Hb [Hc Hd]]] ->]]]]].
    assert (Hoct : forall n, (n <= 255)%nat -> In (decimal n) (Re.enum octet))
      by (intros n Hn; apply enum_octet; eauto).
    assert (Hdot : forall n, (n <= 255)%nat ->
              In (decimal n ++ ".")%string (Re.product (Re.enum octet) [String "." ""])).
    { intros n Hn. apply in_product. exists (decimal n), ".". cbn. auto. }
    apply in_product.
    exists (((decimal a ++ ".") ++ (decimal b ++ ".") ++ (decimal c ++ ".") ++ "")%string),
           (decimal d).
    split; [|split; [now apply Hoct|]].
    + apply in_product.
      exists (decimal a ++ ".")%string, ((decimal b ++ ".") ++ (decimal c ++ ".") ++ "")%string.
      split; [now apply Hdot|]. split; [|reflexivity].
      apply in_product.
      exists (decimal b ++ ".")%string, ((decimal c ++ ".") ++ "")%string.
      split; [now apply Hdot|]. split; [|reflexivity].
      apply in_product. exists (decimal c ++ ".")%string, "".
      split; [now apply Hdot|]. split; [now left|reflexivity].
    + now rewrite append_empty_r, !append_assoc.
Qed.

(** X1: a string matches [ipv4] in full exactly when it is a dotted quad
    of four numbers from 0 to 255 written in decimal without leading
    zeros. *)
Theorem ipv4_fullmatch_dotted_quads (s : string) :
  Re.re_fullmatch ipv4 s = true <->
  exists a b c d,
    (a <= 255 /\ b <= 255 /\ c <= 255 /\ d <= 255)%nat /\ s = dotted_quad a b c d.
Proof. rewrite re_fullmatch_enum. apply enum_ipv4. Qed.

(** X2: under [re.match] the pattern accepts the dotted quads of numbers
    from 0 to 255 and, because of [$], each of them followed by one
    newline; it accepts nothing else. *)
Theorem ipv4_match_allows_trailing_newline (s : string) :
  Re.re_match ipv4 s = true <->
  exists a b c d,
    (a <= 255 /\ b <= 255 /\ c <= 255 /\ d <= 255)%nat
    /\ (s = dotted_quad a b c d \/ s = (dotted_quad a b c d ++ String "010" "")%string).
Proof.
  rewrite re_match_enum. split.
  - intros [s1 [H1 Hs]]. apply enum_ipv4 in H1.
    destruct H1 as [a [b [c [d [Hle ->]]]]]. exists a, b, c, d. auto.
  - intros [a [b [c [d [Hle Hs]]]]]. exists (dotted_quad a b c d).
    split; [|exact Hs]. apply enum_ipv4. exists a, b, c, d. auto.
Qed.

Example ipv4_accepts :
  map (Re.re_match ipv4) ["0.0.0.0"; "192.168.1.10"; "255.255.255.255"; "127.0.0.1"]
  = [true; true; true; true].
Proof. vm_compute. reflexivity. Qed.

Example ipv4_rejects :
  map (Re.re_match ipv4)
      [""; "1.2.3"; "1.2.3.4.5"; "256.1.1.1"; "01.2.3.4"; "1.2.3.04"; "1..2.3";
       " 1.2.3.4"; "1.2.3.4 "; "localhost"]
  = [false; false; false; false; false; false; false; false; false; false].
Proof. vm_compute. reflexivity. Qed.

(** * [ADict] *)

Lemma getitem_setitem {V : Type} (d : ADict.t V) (key key' : string) (value : V) :
  ADict.getitem (ADict.setitem d key value) key'
  = if key' =? key then Some value else ADict.getitem d key'.
Proof.
  induction d as [|[k v] rest IH]; cbn.
  - rewrite (String.eqb_sym key key'). reflexivity.
  - destruct (String.eqb_spec k key) as [->|Hk]; cbn.
    + rewrite (String.eqb_sym key key'). now destruct (key' =? key).
    + rewrite IH. destruct (String.eqb_spec k key') as [->|Hk'].
      * destruct (String.eqb_spec key' key) as [->|_]; [now contradiction Hk|reflexivity].
      * reflexivity.
Qed.

Lemma getitem_none {V : Type} (d : ADict.t V) (key : string) :
  ADict.getitem d key = None <-> ~ In key (ADict.keys d).
Proof.
  induction d as [|[k v] rest IH]; cbn.
  - tauto.
  - destruct (String.eqb_spec k key) as [->|Hk].
    + split; [discriminate|]. intros H. contradiction H. now left.
    + rewrite IH. tauto.
Qed.

Lemma keys_setitem {V : Type} (d : ADict.t V) (key : string) (value : V) :
  ADict.keys (ADict.setitem d key value)
  = if existsb (String.eqb key) (ADict.keys d) then ADict.keys d
    else (ADict.keys d ++ [key])%list.
Proof.
  induction d as [|[k v] rest IH]; cbn; [reflexivity|].
  rewrite (String.eqb_sym key k).
  destruct (String.eqb_spec k key) as [->|Hk]; cbn; [reflexivity|].
  unfold ADict.keys in IH |- *. rewrite IH.
  now destruct (existsb (String.eqb key) (map fst rest)).
Qed.

(** X3: writing an attribute and reading one back. For names that ordinary
    attribute lookup does not find, [d.name = v] followed by [d.name'] gives
    [v] when the names are equal and what [d.name'] gave before
    otherwise. *)
Theorem adict_setattr_getattr {V : Type} (ordinary : string -> bool)
    (d : ADict.t V) (name name' : string) (value : V) :
  ordinary name' = false ->
  ADict.getattr ordinary (ADict.setattr d name value) name'
  = if name' =? name then ADict.Item value else ADict.getattr ordinary d name'.
Proof.
  intros H. unfold ADict.getattr, ADict.setattr. rewrite H, getitem_setitem.
  now destruct (name' =? name).
Qed.

Lemma adict_setattr_getattr_witness :
  (fun name => name =? "keys") "port" = false
  /\ ADict.getattr (fun name => name =? "keys")
       (ADict.setattr [("host", 1); ("port", 2)] "port" 102) "port"
     = if "port" =? "port" then ADict.Item 102
       else ADict.getattr (fun name => name =? "keys") [("host", 1); ("port", 2)] "port".
Proof.
  split; [reflexivity|].
  apply (adict_setattr_getattr (fun name => name =? "keys")
           [("host", 1); ("port", 2)] "port" "port" 102).
  reflexivity.
Defined.

(** X4: reading an attribute fails exactly for a name that ordinary lookup
    does not find and that is not a key, and the failure is the [KeyError]
    of [dict.__getitem__] for that name. *)
Theorem adict_missing_attribute_is_key_error {V : Type} (ordinary : string -> bool)
    (d : ADict.t V) (name key : string) :
  ADict.getattr ordinary d name = ADict.KeyError key <->
  ordinary name = false /\ key = name /\ ~ In name (ADict.keys d).
Proof.
  unfold ADict.getattr. destruct (ordinary name).
  - split; [discriminate|]. intros [H _]. discriminate.
  - destruct (ADict.getitem d name) as [v|] eqn:E.
    + split; [discriminate|]. intros [_ [_ H]].
      apply getitem_none in H. congruence.
    + apply getitem_none in E. split.
      * intros H. injection H as <-. auto.
      * intros [_ [-> _]]. reflexivity.
Qed.

(** X5: a name that ordinary attribute lookup finds (a method of [dict],
    say) can be written but not read back: the assignment stores the item,
    [d[name]] gives it, and [d.name] still gives the ordinary attribute. *)
Theorem adict_ordinary_name_shadows_item {V : Type} (ordinary : string -> bool)
    (d : ADict.t V) (name : string) (value : V) :
  ordinary name = true ->
  ADict.getitem (ADict.setattr d name value) name = Some value
  /\ ADict.getattr ordinary (ADict.setattr d name value) name = ADict.Attribute name
  /\ ADict.getattr ordinary d name = ADict.Attribute name.
Proof.
  intros H. unfold ADict.getattr, ADict.setattr. rewrite H, getitem_setitem.
  now rewrite String.eqb_refl.
Qed.

Lemma adict_ordinary_name_shadows_item_witness :
  (fun name => name =? "keys") "keys" = true
  /\ ADict.getitem (ADict.setattr [("host", 1)] "keys" 5) "keys" = Some 5
  /\ ADict.getattr (fun name => name =? "keys") (ADict.setattr [("host", 1)] "keys" 5) "keys"
     = ADict.Attribute "keys"
  /\ ADict.getattr (fun name => name =? "keys") [("host", 1)] "keys" = ADict.Attribute "keys".
Proof.
  split; [reflexivity|].
  apply (adict_ordinary_name_shadows_item (fun name => name =? "keys")
           [("host", 1)] "keys" 5).
  reflexivity.
Defined.

(** X6: writing an attribute keeps the keys distinct and in insertion
    order: a key that is there keeps its place, a new one goes to the end,
    and writing a name twice is writing it once with the last value. *)
Theorem adict_setattr_keys {V : Type} (d : ADict.t V) (name : string) (v1 v2 : V) :
  NoDup (ADict.keys d) ->
  NoDup (ADict.keys (ADict.setattr d name v2))
  /\ (In name (ADict.keys d) ->
      ADict.keys (ADict.setattr d name v2) = ADict.keys d)
  /\ (~ In name (ADict.keys d) ->
      ADict.keys (ADict.setattr d name v2) = (ADict.keys d ++ [name])%list)
  /\ ADict.setattr (ADict.setattr d name v1) name v2 = ADict.setattr d name v2.
Proof.
  intros Hnd. unfold ADict.setattr.
  assert (Hex : existsb (String.eqb name) (ADict.keys d) = true <-> In name (ADict.keys d)).
  { rewrite existsb_exists. split.
    - intros [k [Hk E]]. apply String.eqb_eq in E. now subst k.
    - intros H. exists name. split; [exact H|apply String.eqb_refl]. }
  assert (Hin : In name (ADict.keys d) ->
                ADict.keys (ADict.setitem d name v2) = ADict.keys d).
  { intros H. rewrite keys_setitem. apply Hex in H. now rewrite H. }
  assert (Hout : ~ In name (ADict.keys d) ->
                 ADict.keys (ADict.setitem d name v2) = (ADict.keys d ++ [name])%list).
  { intros H. rewrite keys_setitem.
    destruct (existsb (String.eqb name) (ADict.keys d)); [|reflexivity].
    contradiction (H (proj1 Hex eq_refl)). }
  split; [|split; [exact Hin|split; [exact Hout|]]].
  - destruct (in_dec string_dec name (ADict.keys d)) as [H|H].
    + now rewrite Hin.
    + rewrite (Hout H). apply NoDup_app; [exact Hnd|repeat constructor; auto|].
      intros k Hk [<-|[]]. contradiction.
  - clear. induction d as [|[k v] rest IH]; cbn.
    + now rewrite String.eqb_refl.
    + destruct (String.eqb_spec k name) as [->|Hk]; cbn.
      * now rewrite String.eqb_refl.
      * destruct (String.eqb_spec k name) as [E|_]; [contradiction|]. now rewrite IH.
Qed.

Lemma adict_setattr_keys_witness :
  NoDup (ADict.keys [("host", 1); ("port", 2)])
  /\ NoDup (ADict.keys (ADict.setattr [("host", 1); ("port", 2)] "rack" 0))
  /\ (In "rack" (ADict.keys [("host", 1); ("port", 2)]) ->
      ADict.keys (ADict.setattr [("host", 1); ("port", 2)] "rack" 0)
      = ADict.keys [("host", 1); ("port", 2)])
  /\ (~ In "rack" (ADict.keys [("host", 1); ("port", 2)]) ->
      ADict.keys (ADict.setattr [("host", 1); ("port", 2)] "rack" 0)
      = (ADict.keys [("host", 1); ("port", 2)] ++ ["rack"])%list)
  /\ ADict.setattr (ADict.setattr [("host", 1); ("port", 2)] "rack" 3) "rack" 0
     = ADict.setattr [("host", 1); ("port", 2)] "rack" 0.
Proof.
  assert (Hnd : NoDup (ADict.keys [("host", 1); ("port", 2)])).
  { cbn. repeat constructor; cbn; intuition discriminate. }
  split; [exact Hnd|].
  apply (adict_setattr_keys [("host", 1); ("port", 2)] "rack" 3 0 Hnd).
Defined.

(** * More on the loader *)

Lemma load_library_log (env : Env) (p : Proc) (arg : option string) :
  log (snd (load_library arg env p)) = log p.
Proof.
  destruct (loaded p) as [h|] eqn:Hl.
  - now rewrite (load_library_loaded env p arg h Hl).
  - now rewrite (load_library_first env p arg Hl).
Qed.

(** A cached location that does not resolve is passed over without a
    probe, like no location at all. *)
Lemma try_in_order_cached_unresolved (env : Env) (cached arg : option string) :
  truthy cached = false ->
  try_in_order (candidates env cached arg) = try_in_order (candidates env None arg).
Proof.
  intros H. unfold candidates. cbn [try_in_order].
  rewrite H. reflexivity.
Qed.

(** An argument that does not resolve is passed over in the same way. *)
Lemma try_in_order_arg_unresolved (env : Env) (cached arg : option string) :
  truthy arg = false ->
  try_in_order (candidates env cached arg) = try_in_order (candidates env cached None).
Proof.
  intros H. unfold candidates. cbn [try_in_order].
  rewrite H. reflexivity.
Qed.

(** A cached location that resolves is taken as soon as the argument does
    not resolve, and nothing is probed. *)
Lemma try_in_order_cached (env : Env) (path : string) (arg : option string) :
  truthy arg = false ->
  truthy (Some path) = true ->
  try_in_order (candidates env (Some path) arg) = (Some path, []).
Proof.
  intros Ha Hp.
  apply (try_in_order_first [(arg, [])] _ (Some path, [])); [|exact Hp].
  repeat constructor. exact Ha.
Qed.

(** X7: a location that could not be opened stays cached. When the explicit
    path resolves but [LoadLibrary] fails on it, the [OSError] is raised, no
    handle is held, and the path is the cached location from then on;
    nothing but the failed opening has happened. *)
Theorem failed_open_keeps_location (env : Env) (p : Proc) (path : string) :
  loaded p = None ->
  path <> "" ->
  LoadLibrary env path = None ->
  fst (load_library (Some path) env p) = Raise (OSError path)
  /\ loaded (snd (load_library (Some path) env p)) = None
  /\ cached_location (snd (load_library (Some path) env p)) = Some path
  /\ events (snd (load_library (Some path) env p))
     = (events p ++ [EvLoadLibrary path false])%list.
Proof.
  intros Hl Hp Ho.
  assert (Ht : truthy (Some path) = true).
  { cbn. now destruct (String.eqb_spec path ""). }
  rewrite (load_library_first env p (Some path) Hl). unfold first_load.
  rewrite (try_in_order_first [] _ (Some path, []) (Forall_nil _) Ht
           : try_in_order (candidates env (cached_location p) (Some path)) = _).
  cbn [fst snd List.concat map app]. rewrite Ht, Ho. cbn. repeat split.
Qed.

Lemma failed_open_keeps_location_witness :
  loaded fresh_process = None
  /\ "/no/such/lib.so" <> ""
  /\ LoadLibrary demo_env "/no/such/lib.so" = None
  /\ fst (load_library (Some "/no/such/lib.so") demo_env fresh_process)
     = Raise (OSError "/no/such/lib.so")
  /\ loaded (snd (load_library (Some "/no/such/lib.so") demo_env fresh_process)) = None
  /\ cached_location (snd (load_library (Some "/no/such/lib.so") demo_env fresh_process))
     = Some "/no/such/lib.so"
  /\ events (snd (load_library (Some "/no/such/lib.so") demo_env fresh_process))
     = (events fresh_process ++ [EvLoadLibrary "/no/such/lib.so" false])%list.
Proof.
  split; [reflexivity|]. split; [discriminate|]. split; [reflexivity|].
  apply (failed_open_keeps_location demo_env fresh_process "/no/such/lib.so");
    [reflexivity|discriminate|reflexivity].
Defined.

(** X8: a cached location shadows the search. While no handle is held, a
    call whose argument is absent or empty goes straight to [LoadLibrary] on
    the cached location: the package, the system and the working directory
    are not probed, whatever they hold, and the outcome is the one of that
    opening alone. *)
Theorem cached_location_shadows_search
    (env : Env) (p : Proc) (path : string) (arg : option string) :
  loaded p = None ->
  cached_location p = Some path ->
  path <> "" ->
  truthy arg = false ->
  fst (load_library arg env p)
    = match LoadLibrary env path with
      | Some h => Ok h
      | None => Raise (OSError path)
      end
  /\ cached_location (snd (load_library arg env p)) = Some path
  /\ events (snd (load_library arg env p))
     = (events p
        ++ [EvLoadLibrary path
              (match LoadLibrary env path with Some _ => true | None => false end)])%list.
Proof.
  intros Hl Hc Hp Ha.
  assert (Ht : truthy (Some path) = true).
  { cbn. now destruct (String.eqb_spec path ""). }
  rewrite (load_library_first env p arg Hl). unfold first_load.
  rewrite Hc, (try_in_order_cached env path arg Ha Ht). rewrite Ht.
  destruct (LoadLibrary env path) as [h|]; cbn; repeat split.
Qed.

Lemma cached_location_shadows_search_witness :
  loaded (snd (load_library (Some "/no/such/lib.so") bare_env fresh_process)) = None
  /\ cached_location (snd (load_library (Some "/no/such/lib.so") bare_env fresh_process))
     = Some "/no/such/lib.so"
  /\ "/no/such/lib.so" <> ""
  /\ truthy None = false
  /\ fst (load_library None demo_env
            (snd (load_library (Some "/no/such/lib.so") bare_env fresh_process)))
     = match LoadLibrary demo_env "/no/such/lib.so" with
       | Some h => Ok h
       | None => Raise (OSError "/no/such/lib.so")
       end
  /\ cached_location
       (snd (load_library None demo_env
               (snd (load_library (Some "/no/such/lib.so") bare_env fresh_process))))
     = Some "/no/such/lib.so"
  /\ events
       (snd (load_library None demo_env
               (snd (load_library (Some "/no/such/lib.so") bare_env fresh_process))))
     = (events (snd (load_library (Some "/no/such/lib.so") bare_env fresh_process))
        ++ [EvLoadLibrary "/no/such/lib.so"
              (match LoadLibrary demo_env "/no/such/lib.so" with
               | Some _ => true
               | None => false
               end)])%list.
Proof.
  split; [reflexivity|]. split; [reflexivity|]. split; [discriminate|].
  split; [reflexivity|].
  apply (cached_location_shadows_search demo_env
           (snd (load_library (Some "/no/such/lib.so") bare_env fresh_process))
           "/no/such/lib.so" None);
    [reflexivity|reflexivity|discriminate|reflexivity].
Defined.

(** The first load reads the process state through the handle and the cached
    location only. *)
Lemma load_library_first_fresh (env : Env) (p : Proc) (arg : option string) :
  loaded p = None ->
  truthy (cached_location p) = false ->
  fst (load_library arg env p) = fst (load_library arg env fresh_process)
  /\ events (snd (load_library arg env p))
     = (events p ++ events (snd (load_library arg env fresh_process)))%list
  /\ loaded (snd (load_library arg env p))
     = loaded (snd (load_library arg env fresh_process))
  /\ cached_location (snd (load_library arg env p))
     = cached_location (snd (load_library arg env fresh_process)).
Proof.
  intros Hl Hc.
  rewrite (load_library_first env p arg Hl).
  rewrite (load_library_first env fresh_process arg eq_refl).
  unfold first_load.
  rewrite (try_in_order_cached_unresolved env (cached_location p) arg Hc).
  change (cached_location fresh_process) with (@None string).
  destruct (try_in_order (candidates env None arg)) as [loc probes].
  destruct loc as [path|]; [|cbn; repeat split].
  destruct (truthy (Some path)); [|cbn; repeat split].
  destruct (LoadLibrary env path) as [h|]; cbn; repeat split.
Qed.

(** X9: not finding the library is not remembered. After a load has failed
    with the [RuntimeError] of a missing library, no handle is held and the
    cached location does not resolve, and every later load, under any
    answers of the operating system and with any argument, gives what it
    would give in a fresh process. *)
Theorem not_found_is_not_sticky (env : Env) (p : Proc) (arg : option string) :
  loaded p = None ->
  fst (load_library arg env p) = Raise (RuntimeError (ArgStr not_found_message)) ->
  loaded (snd (load_library arg env p)) = None
  /\ truthy (cached_location (snd (load_library arg env p))) = false
  /\ forall env' arg',
       fst (load_library arg' env' (snd (load_library arg env p)))
         = fst (load_library arg' env' fresh_process)
       /\ events (snd (load_library arg' env' (snd (load_library arg env p))))
          = (events (snd (load_library arg env p))
             ++ events (snd (load_library arg' env' fresh_process)))%list.
Proof.
  intros Hl Hr.
  assert (H : loaded (snd (load_library arg env p)) = None
              /\ truthy (cached_location (snd (load_library arg env p))) = false).
  { rewrite (load_library_first env p arg Hl) in Hr |- *. unfold first_load in *.
    destruct (try_in_order (candidates env (cached_location p) arg)) as [loc probes].
    destruct loc as [path|]; [|cbn; split; reflexivity].
    destruct (truthy (Some path)) eqn:Et; [|cbn in *; split; [reflexivity|exact Et]].
    destruct (LoadLibrary env path) as [h|]; cbn in Hr; discriminate Hr. }
  destruct H as [Hl' Hc']. split; [exact Hl'|]. split; [exact Hc'|].
  intros env' arg'.
  destruct (load_library_first_fresh env' _ arg' Hl' Hc') as [H1 [H2 _]].
  split; assumption.
Qed.

Lemma not_found_is_not_sticky_witness :
  loaded fresh_process = None
  /\ fst (load_library None bare_env fresh_process)
     = Raise (RuntimeError (ArgStr not_found_message))
  /\ loaded (snd (load_library None bare_env fresh_process)) = None
  /\ truthy (cached_location (snd (load_library None bare_env fresh_process))) = false
  /\ forall env' arg',
       fst (load_library arg' env' (snd (load_library None bare_env fresh_process)))
         = fst (load_library arg' env' fresh_process)
       /\ events (snd (load_library arg' env'
                         (snd (load_library None bare_env fresh_process))))
          = (events (snd (load_library None bare_env fresh_process))
             ++ events (snd (load_library arg' env' fresh_process)))%list.
Proof.
  split; [reflexivity|]. split; [reflexivity|].
  apply (not_found_is_not_sticky bare_env fresh_process None); reflexivity.
Defined.

(** X10: an empty path counts as no path: [load_library("")] and
    [load_library()] give the same result and leave the same process state,
    in every state and under every answer of the operating system. *)
Theorem empty_path_is_no_path (env : Env) (p : Proc) :
  load_library (Some "") env p = load_library None env p.
Proof.
  destruct (loaded p) as [h|] eqn:Hl.
  - rewrite (load_library_loaded env p (Some "") h Hl).
    now rewrite (load_library_loaded env p None h Hl).
  - rewrite (load_library_first env p (Some "") Hl).
    rewrite (load_library_first env p None Hl). unfold first_load.
    now rewrite (try_in_order_arg_unresolved env (cached_location p) (Some "") eq_refl).
Qed.

(** X11: a handle that [load_library] returns is the one the singleton
    holds afterwards, and on a first load it is what [LoadLibrary] gave for
    the location now cached, a path that is not empty. *)
Theorem returned_handle_is_the_cached_one
    (env : Env) (p : Proc) (arg : option string) (h : CDLL) :
  fst (load_library arg env p) = Ok h ->
  loaded (snd (load_library arg env p)) = Some h
  /\ (loaded p = None ->
      exists path,
        path <> ""
        /\ cached_location (snd (load_library arg env p)) = Some path
        /\ LoadLibrary env path = Some h).
Proof.
  intros Hr. destruct (loaded p) as [h0|] eqn:Hl.
  - rewrite (load_library_loaded env p arg h0 Hl) in Hr |- *. cbn in Hr.
    injection Hr as ->. split; [exact Hl|discriminate].
  - rewrite (load_library_first env p arg Hl) in Hr |- *. unfold first_load in *.
    destruct (try_in_order (candidates env (cached_location p) arg)) as [loc probes].
    destruct loc as [path|]; [|discriminate Hr].
    destruct (truthy (Some path)) eqn:Et; [|discriminate Hr].
    destruct (LoadLibrary env path) as [h1|] eqn:Ho; cbn in Hr; [|discriminate Hr].
    injection Hr as ->. cbn. split; [reflexivity|]. intros _.
    exists path. split; [|split; [reflexivity|exact Ho]].
    destruct (truthy_some _ Et) as [path' [E Hne]]. now injection E as ->.
Qed.

Lemma returned_handle_is_the_cached_one_witness :
  fst (load_library None demo_env fresh_process) = Ok demo_cdll
  /\ loaded (snd (load_library None demo_env fresh_process)) = Some demo_cdll
  /\ (loaded fresh_process = None ->
      exists path,
        path <> ""
        /\ cached_location (snd (load_library None demo_env fresh_process)) = Some path
        /\ LoadLibrary demo_env path = Some demo_cdll).
Proof.
  split; [reflexivity|].
  apply (returned_handle_is_the_cached_one demo_env fresh_process None demo_cdll).
  reflexivity.
Defined.

(** * More on the error translator *)

(** [check_error] returns for codes 0 and 1 only. *)
Lemma check_error_returns (env : Env) (p q : Proc) (code : Z) (context : string) (u : unit) :
  check_error code context env p = (Ok u, q) ->
  (code = 0 \/ code = 1) /\ q = p.
Proof.
  intros H.
  destruct (Z.eq_dec code 0) as [H0|H0];
    [rewrite check_error_skip in H by (now left); injection H as _ <-; auto|].
  destruct (Z.eq_dec code 1) as [H1|H1];
    [rewrite check_error_skip in H by (now right); injection H as _ <-; auto|].
  rewrite (check_error_hard env p code context (conj H0 H1)) in H.
  destruct (error_text code context env p) as [[error|e] p']; discriminate H.
Qed.

Lemma decorator_unfold {Args : Type} (context : string) (func : Args -> M Z)
    (args : Args) (env : Env) (p : Proc) :
  error_hadler_decorator context func args env p =
  match func args env p with
  | (Ok code, p') =>
      match check_error code context env p' with
      | (Ok _, q) => (Ok code, q)
      | (Raise e, q) => (Raise e, q)
      end
  | (Raise e, p') => (Raise e, p')
  end.
Proof.
  unfold error_hadler_decorator, bind, ret.
  destruct (func args env p) as [[code|e] p']; [|reflexivity].
  now destruct (check_error code context env p') as [[u|e] q].
Qed.

(** X12: a decorated function returns nothing but 0 and 1, whatever the
    context string, valid or not: when the wrapper returns a code, the
    wrapped function returned that code in that state and the code is 0 or
    1; and an exception of the wrapped function comes out of the wrapper
    unchanged, with the state the function left. *)
Theorem decorated_returns_only_soft_codes
    {Args : Type} (context : string) (func : Args -> M Z) (args : Args)
    (env : Env) (p : Proc) :
  (forall code q,
      error_hadler_decorator context func args env p = (Ok code, q) ->
      func args env p = (Ok code, q) /\ (code = 0 \/ code = 1))
  /\ (forall e q,
        func args env p = (Raise e, q) ->
        error_hadler_decorator context func args env p = (Raise e, q)).
Proof.
  rewrite decorator_unfold. split.
  - intros code q H.
    destruct (func args env p) as [[code'|e] p']; [|discriminate H].
    destruct (check_error code' context env p') as [[u|e] q'] eqn:Hc; [|discriminate H].
    injection H as -> ->.
    destruct (check_error_returns env p' q code context u Hc) as [Hs ->]. auto.
  - intros e q H. now rewrite H.
Qed.

(** X13: decorating twice is decorating once: a wrapper around a wrapper
    behaves, result and state, as the inner wrapper alone, whatever the two
    contexts. *)
Theorem decorating_twice_is_decorating_once
    {Args : Type} (outer inner : string) (func : Args -> M Z) (args : Args)
    (env : Env) (p : Proc) :
  error_hadler_decorator outer (error_hadler_decorator inner func) args env p
  = error_hadler_decorator inner func args env p.
Proof.
  rewrite (decorator_unfold outer (error_hadler_decorator inner func)).
  rewrite (decorator_unfold inner func).
  destruct (func args env p) as [[code|e] p']; [|reflexivity].
  destruct (check_error code inner env p') as [[u|e] q] eqn:Hc; [|reflexivity].
  destruct (check_error_returns env p' q code inner u Hc) as [Hs ->].
  now rewrite (check_error_skip env p' code outer Hs).
Qed.

(** X14: what [check_error] logs on a hard error. For a role among client,
    server and partner and a code other than 0 and 1, the debug record of
    [error_text] is written first. When the handle is obtained and the code
    is in the range [ctypes] converts, the entry point is called and the
    error record that follows holds, byte for byte, the message of the
    [RuntimeError] raised. When [ctypes] refuses the code, its
    [ArgumentError] is raised, and when the library cannot be loaded, the
    loader's exception: in both cases no entry point is called and no error
    record is written. Loading itself logs nothing. *)
Theorem check_error_logs_what_it_raises
    (env : Env) (p : Proc) (code : Z) (context : string) (ep : EntryPoint) :
  role_entry context = Some ep ->
  code <> 0 /\ code <> 1 ->
  check_error code context env p
  = match load_library None env p with
    | (Ok library, p') =>
        if int_converts (long_bits env) code then
          (Raise (RuntimeError (ArgBytes (decoded_message library ep code))),
           add_log (LogError (decoded_message library ep code))
             (add_event (EvErrorText ep code 1024)
                (add_log (LogDebug ("error text for " ++ HexString.of_Z code)) p')))
        else
          (Raise (ArgumentError 1),
           add_log (LogDebug ("error text for " ++ HexString.of_Z code)) p')
    | (Raise e, p') =>
        (Raise e, add_log (LogDebug ("error text for " ++ HexString.of_Z code)) p')
    end
  /\ (int_converts (long_bits env) code = true
      <-> - 2 ^ (long_bits env - 1) <= code < 2 ^ long_bits env)
  /\ log (snd (load_library None env p)) = log p.
Proof.
  intros Hep H. split; [now apply check_error_hard_known|].
  split; [apply int_converts_range|apply load_library_log].
Qed.

Lemma check_error_logs_what_it_raises_witness :
  role_entry "client" = Some EP_Cli_ErrorText
  /\ (5 <> 0 /\ 5 <> 1)
  /\ check_error 5 "client" demo_env fresh_process
     = match load_library None demo_env fresh_process with
       | (Ok library, p') =>
           if int_converts (long_bits demo_env) 5 then
             (Raise (RuntimeError (ArgBytes (decoded_message library EP_Cli_ErrorText 5))),
              add_log (LogError (decoded_message library EP_Cli_ErrorText 5))
                (add_event (EvErrorText EP_Cli_ErrorText 5 1024)
                   (add_log (LogDebug ("error text for " ++ HexString.of_Z 5)) p')))
           else
             (Raise (ArgumentError 1),
              add_log (LogDebug ("error text for " ++ HexString.of_Z 5)) p')
       | (Raise e, p') =>
           (Raise e, add_log (LogDebug ("error text for " ++ HexString.of_Z 5)) p')
       end
  /\ (int_converts (long_bits demo_env) 5 = true
      <-> - 2 ^ (long_bits demo_env - 1) <= 5 < 2 ^ long_bits demo_env)
  /\ log (snd (load_library None demo_env fresh_process)) = log fresh_process.
Proof.
  split; [reflexivity|]. split; [split; discriminate|].
  apply (check_error_logs_what_it_raises demo_env fresh_process 5 "client" EP_Cli_ErrorText).
  - reflexivity.
  - split; discriminate.
Defined.

Example demo_check_error_log :
  log (snd (check_error 5 "client" demo_env fresh_process))
  = [LogDebug "error text for 0x5"; LogError ["C"%byte; "!"%byte]].
Proof. reflexivity. Qed.

(** ** The buffer *)

Lemma c_string_no_nul (buf : list byte) : ~ In x00 (c_string buf).
Proof.
  induction buf as [|c rest IH]; cbn; [tauto|].
  destruct (Byte.eqb c x00) eqn:E; cbn; [tauto|].
  intros [H|H]; [|now apply IH].
  apply Byte.eqb_false in E. contradiction.
Qed.

Lemma c_string_length (buf : list byte) :
  (List.length (c_string buf) <= List.length buf)%nat.
Proof.
  induction buf as [|c rest IH]; cbn; [lia|].
  destruct (Byte.eqb c x00); cbn; lia.
Qed.

Lemma value_bounds (len_ : Z) (text : list byte) :
  (List.length (value len_ text) <= Z.to_nat len_)%nat /\ ~ In x00 (value len_ text).
Proof.
  unfold value. split; [|apply c_string_no_nul].
  pose proof (c_string_length (firstn (Z.to_nat len_) text)) as H.
  pose proof (firstn_le_length (Z.to_nat len_) text). lia.
Qed.

Lemma value_c_string (len_ : Z) (msg rest : list byte) :
  ~ In x00 msg ->
  value len_ (msg ++ x00 :: rest) = firstn (Z.to_nat len_) msg.
Proof.
  unfold value. generalize (Z.to_nat len_) as n.
  induction msg as [|c msg IH]; intros n Hn.
  - destruct n; cbn; [reflexivity|]. reflexivity.
  - destruct n; cbn; [reflexivity|].
    destruct (Byte.eqb c x00) eqn:E.
    + apply Byte.byte_dec_bl in E. subst c. contradiction Hn. now left.
    + rewrite IH; [reflexivity|]. intros H. apply Hn. now right.
Qed.

(** X15: whatever the driver does to the buffer, a message that
    [error_text] returns has at most 1024 bytes and holds no NUL byte. *)
Theorem error_text_message_bounds
    (env : Env) (p q : Proc) (error : Z) (context : string) (msg : list byte) :
  error_text error context env p = (Ok msg, q) ->
  (List.length msg <= 1024)%nat /\ ~ In x00 msg.
Proof.
  intros H. destruct (in_contexts context) eqn:Hin.
  - destruct (proj1 (in_contexts_role_entry context) Hin) as [ep Hep].
    rewrite (error_text_known env p error context ep Hep) in H.
    destruct (load_library None env _) as [[library|e] p']; [|discriminate H].
    destruct (int_converts (long_bits env) error); [|discriminate H].
    injection H as <- _. unfold decoded_message.
    apply (value_bounds 1024).
  - rewrite (error_text_unknown env p error context Hin) in H. discriminate H.
Qed.

Lemma error_text_message_bounds_witness :
  error_text 5 "client" demo_env fresh_process
    = (Ok ["C"%byte; "!"%byte], snd (error_text 5 "client" demo_env fresh_process))
  /\ (List.length ["C"%byte; "!"%byte] <= 1024)%nat
  /\ ~ In x00 ["C"%byte; "!"%byte].
Proof.
  split; [reflexivity|].
  apply (error_text_message_bounds demo_env fresh_process
           (snd (error_text 5 "client" demo_env fresh_process)) 5 "client").
  reflexivity.
Defined.

(** X16: a C string comes back as it was written. When the code is one
    [ctypes] converts and the role's entry point leaves in the buffer a
    message without NUL bytes followed by its terminator, [error_text]
    returns the first 1024 bytes of the message: the message itself when it
    fits, cut at the size of the buffer when the driver wrote more. *)
Theorem error_text_returns_c_string
    (env : Env) (p : Proc) (error : Z) (context : string) (ep : EntryPoint)
    (library : CDLL) (msg : list byte) :
  role_entry context = Some ep ->
  fst (load_library None env p) = Ok library ->
  - 2 ^ (long_bits env - 1) <= error < 2 ^ long_bits env ->
  entry ep library error (c_char_array 1024) 1024
    = write_c_string msg (c_char_array 1024) ->
  ~ In x00 msg ->
  fst (error_text error context env p) = Ok (firstn 1024 msg)
  /\ ((List.length msg <= 1024)%nat -> fst (error_text error context env p) = Ok msg).
Proof.
  intros Hep Hl Hr Hw Hn. apply int_converts_range in Hr.
  assert (H : fst (error_text error context env p) = Ok (firstn 1024 msg)).
  { rewrite (error_text_known env p error context ep Hep), load_library_add_log.
    destruct (load_library None env p) as [[library'|e] p']; cbn in Hl; [|discriminate].
    injection Hl as ->. cbn [fst]. rewrite Hr. cbn [fst].
    unfold decoded_message. rewrite Hw.
    unfold write_c_string. now rewrite (value_c_string 1024 msg _ Hn). }
  split; [exact H|].
  intros Hlen. rewrite H. now rewrite firstn_all2.
Qed.

Lemma error_text_returns_c_string_witness :
  role_entry "partner" = Some EP_Par_ErrorText
  /\ fst (load_library None demo_env fresh_process) = Ok demo_cdll
  /\ - 2 ^ (long_bits demo_env - 1) <= 5 < 2 ^ long_bits demo_env
  /\ entry EP_Par_ErrorText demo_cdll 5 (c_char_array 1024) 1024
     = write_c_string ["P"%byte; "!"%byte] (c_char_array 1024)
  /\ ~ In x00 ["P"%byte; "!"%byte]
  /\ fst (error_text 5 "partner" demo_env fresh_process)
     = Ok (firstn 1024 ["P"%byte; "!"%byte])
  /\ ((List.length ["P"%byte; "!"%byte] <= 1024)%nat ->
      fst (error_text 5 "partner" demo_env fresh_process) = Ok ["P"%byte; "!"%byte]).
Proof.
  assert (Hn : ~ In x00 ["P"%byte; "!"%byte])
    by (cbn; intros [H|[H|[]]]; discriminate H).
  assert (Hr : - 2 ^ (long_bits demo_env - 1) <= 5 < 2 ^ long_bits demo_env)
    by (cbn; lia).
  split; [reflexivity|]. split; [reflexivity|]. split; [exact Hr|].
  split; [reflexivity|]. split; [exact Hn|].
  apply (error_text_returns_c_string demo_env fresh_process 5 "partner"
           EP_Par_ErrorText demo_cdll ["P"%byte; "!"%byte]);
    [reflexivity|reflexivity|exact Hr|reflexivity|exact Hn].
Defined.

Lemma load_library_ok_loaded (env : Env) (p : Proc) (arg : option string) (h : CDLL) :
  fst (load_library arg env p) = Ok h ->
  loaded (snd (load_library arg env p)) = Some h.
Proof.
  intros Hr. destruct (loaded p) as [h0|] eqn:Hl.
  - rewrite (load_library_loaded env p arg h0 Hl) in Hr |- *. cbn in Hr.
    now injection Hr as ->.
  - rewrite (load_library_first env p arg Hl) in Hr |- *. unfold first_load in *.
    destruct (try_in_order (candidates env (cached_location p) arg)) as [loc probes].
    destruct loc as [path|]; [|discriminate Hr].
    destruct (truthy (Some path)); [|discriminate Hr].
    destruct (LoadLibrary env path) as [h1|]; cbn in Hr; [|discriminate Hr].
    now injection Hr as ->.
Qed.

(** X17: the first error message fixes the driver of the process. Whenever
    [error_text] returns a message, the singleton holds a handle afterwards,
    and from then on [load_library] returns that handle and changes nothing,
    whatever path it is given and whatever the operating system would
    answer. *)
Theorem error_text_loads_the_library
    (env : Env) (p q : Proc) (error : Z) (context : string) (msg : list byte) :
  error_text error context env p = (Ok msg, q) ->
  exists h,
    loaded q = Some h
    /\ forall env' arg, load_library arg env' q = (Ok h, q).
Proof.
  intros H. destruct (in_contexts context) eqn:Hin.
  - destruct (proj1 (in_contexts_role_entry context) Hin) as [ep Hep].
    rewrite (error_text_known env p error context ep Hep) in H.
    pose proof (load_library_ok_loaded env
                  (add_log (LogDebug ("error text for " ++ HexString.of_Z error)) p) None)
      as Hok.
    destruct (load_library None env _) as [[library|e] p']; [|discriminate H].
    destruct (int_converts (long_bits env) error); [|discriminate H].
    injection H as _ <-. specialize (Hok library eq_refl). cbn [snd] in Hok.
    exists library.
    assert (Hq : loaded (add_event (EvErrorText ep error 1024) p') = Some library)
      by exact Hok.
    split; [exact Hq|].
    intros env' arg. now apply load_library_loaded.
  - rewrite (error_text_unknown env p error context Hin) in H. discriminate H.
Qed.

Lemma error_text_loads_the_library_witness :
  error_text 5 "client" demo_env fresh_process
    = (Ok ["C"%byte; "!"%byte], snd (error_text 5 "client" demo_env fresh_process))
  /\ exists h,
       loaded (snd (error_text 5 "client" demo_env fresh_process)) = Some h
       /\ forall env' arg,
            load_library arg env' (snd (error_text 5 "client" demo_env fresh_process))
            = (Ok h, snd (error_text 5 "client" demo_env fresh_process)).
Proof.
  split; [reflexivity|].
  apply (error_text_loads_the_library demo_env fresh_process
           (snd (error_text 5 "client" demo_env fresh_process)) 5 "client"
           ["C"%byte; "!"%byte]).
  reflexivity.
Defined.
